(** * SHiP-RRIP last-level-cache replacement policy

    A shallow embedding of the two replacement policies of the repository:

    - [NewPolicy]: [src/new_policy.cc], the "improved" SHiP-RRIP+ policy
      (two aging tiers, hit-time SHCT reinforcement, four insertion tiers);
    - [Baseline]: [src/015_ship_rrip__signature_based_hit_predictor_with_srrip.cc],
      the plain SHiP-RRIP policy.

    The C++ code keeps its state in file-level static arrays.  Here the
    arrays are fields of a record [State], the entry points are computations
    in a state-and-failure monad [M], and an array access outside the
    declared extent (undefined behaviour in C++) is a failure [None]. *)

From Stdlib Require Import ZArith Lia.
From stdpp Require Import base tactics option numbers list.

(** ** Machine integers *)

Section machine_integers.
Local Open Scope Z_scope.

(** Conversion to [uint8_t], [uint16_t], [uint32_t], [uint64_t]. *)
Definition wrap8 (z : Z) : Z := z mod 2 ^ 8.
Definition wrap16 (z : Z) : Z := z mod 2 ^ 16.
Definition wrap32 (z : Z) : Z := z mod 2 ^ 32.
Definition wrap64 (z : Z) : Z := z mod 2 ^ 64.
End machine_integers.

(** ** Configuration constants (identical in both source files) *)

Definition NUM_CORE : nat := 1.
Definition LLC_SETS : nat := NUM_CORE * 2048.
Definition LLC_WAYS : nat := 16.

Definition RRPV_BITS : Z := 3.
Definition MAX_RRPV : Z := Z.shiftl 1 RRPV_BITS - 1.

Definition SHCT_SIZE : Z := 1024.
Definition SHCT_MAX : Z := 7.
Definition SHCT_INIT : Z := 4.
Definition THRESHOLD : Z := SHCT_INIT.
Definition SIGN_SHIFT : Z := 4.

(** ** Replacement state

    [repl_rrpv], [repl_sig] and [repl_reused] are indexed
    [[cpu][set][way]]; [SHCT] is shared by all cores. *)

Record State : Type := mkState {
  repl_rrpv : list (list (list Z));   (* uint8_t  [NUM_CORE][LLC_SETS][LLC_WAYS] *)
  repl_sig : list (list (list Z));    (* uint16_t [NUM_CORE][LLC_SETS][LLC_WAYS] *)
  repl_reused : list (list (list Z)); (* uint8_t  [NUM_CORE][LLC_SETS][LLC_WAYS] *)
  SHCT : list Z;                      (* uint8_t  [SHCT_SIZE] *)
  stat_hits : Z;                      (* uint64_t *)
  stat_misses : Z                     (* uint64_t *)
}.

(** ** Array accesses *)

(** [a[c][s][w]], failing outside the array. *)
Definition rd3 (a : list (list (list Z))) (c s w : nat) : option Z :=
  match a !! c with
  | Some plane =>
      match plane !! s with
      | Some row => row !! w
      | None => None
      end
  | None => None
  end.

(** [a[c][s][w] = v], failing outside the array. *)
Definition wr3 (a : list (list (list Z))) (c s w : nat) (v : Z)
  : option (list (list (list Z))) :=
  match rd3 a c s w with
  | Some _ => Some (alter (alter (<[w := v]>) s) c a)
  | None => None
  end.

(** The row [a[c][s]] of one cache set. *)
Definition row3 (a : list (list (list Z))) (c s : nat) : option (list Z) :=
  match a !! c with
  | Some plane => plane !! s
  | None => None
  end.

(** Index of a one-dimensional array by an unsigned integer. *)
Definition rd1 (a : list Z) (i : Z) : option Z :=
  if bool_decide (0 ≤ i)%Z then a !! Z.to_nat i else None.

Definition wr1 (a : list Z) (i : Z) (v : Z) : option (list Z) :=
  match rd1 a i with
  | Some _ => Some (<[Z.to_nat i := v]> a)
  | None => None
  end.

(** ** The state-and-failure monad *)

Definition M (A : Type) : Type := State → option (A * State).

Definition ret {A : Type} (a : A) : M A := λ st, Some (a, st).

Definition bind {A B : Type} (m : M A) (k : A → M B) : M B :=
  λ st, match m st with
        | Some (a, st') => k a st'
        | None => None
        end.

Notation "'let*' x ':=' m 'in' k" := (bind m (λ x, k))
  (at level 10, x name, m at level 100, k at level 200).
Notation "m '>>' k" := (bind m (λ _, k))
  (at level 100, k at level 200, right associativity).

Definition rrpv_get (c s w : nat) : M Z :=
  λ st, match rd3 (repl_rrpv st) c s w with
        | Some v => Some (v, st)
        | None => None
        end.

Definition rrpv_set (c s w : nat) (v : Z) : M unit :=
  λ st, match wr3 (repl_rrpv st) c s w v with
        | Some a => Some (tt, mkState a (repl_sig st) (repl_reused st) (SHCT st)
                                (stat_hits st) (stat_misses st))
        | None => None
        end.

Definition sig_get (c s w : nat) : M Z :=
  λ st, match rd3 (repl_sig st) c s w with
        | Some v => Some (v, st)
        | None => None
        end.

Definition sig_set (c s w : nat) (v : Z) : M unit :=
  λ st, match wr3 (repl_sig st) c s w v with
        | Some a => Some (tt, mkState (repl_rrpv st) a (repl_reused st) (SHCT st)
                                (stat_hits st) (stat_misses st))
        | None => None
        end.

Definition reused_get (c s w : nat) : M Z :=
  λ st, match rd3 (repl_reused st) c s w with
        | Some v => Some (v, st)
        | None => None
        end.

Definition reused_set (c s w : nat) (v : Z) : M unit :=
  λ st, match wr3 (repl_reused st) c s w v with
        | Some a => Some (tt, mkState (repl_rrpv st) (repl_sig st) a (SHCT st)
                                (stat_hits st) (stat_misses st))
        | None => None
        end.

Definition SHCT_get (i : Z) : M Z :=
  λ st, match rd1 (SHCT st) i with
        | Some v => Some (v, st)
        | None => None
        end.

Definition SHCT_set (i : Z) (v : Z) : M unit :=
  λ st, match wr1 (SHCT st) i v with
        | Some a => Some (tt, mkState (repl_rrpv st) (repl_sig st) (repl_reused st) a
                                (stat_hits st) (stat_misses st))
        | None => None
        end.

(** [stat_hits++] and [stat_misses++] on [uint64_t]. *)
Definition stat_hits_incr : M unit :=
  λ st, Some (tt, mkState (repl_rrpv st) (repl_sig st) (repl_reused st) (SHCT st)
                    (wrap64 (stat_hits st + 1)) (stat_misses st)).

Definition stat_misses_incr : M unit :=
  λ st, Some (tt, mkState (repl_rrpv st) (repl_sig st) (repl_reused st) (SHCT st)
                    (stat_hits st) (wrap64 (stat_misses st + 1))).

(** [stat_hits = v] and [stat_misses = v]. *)
Definition stat_hits_set (v : Z) : M unit :=
  λ st, Some (tt, mkState (repl_rrpv st) (repl_sig st) (repl_reused st) (SHCT st)
                    v (stat_misses st)).

Definition stat_misses_set (v : Z) : M unit :=
  λ st, Some (tt, mkState (repl_rrpv st) (repl_sig st) (repl_reused st) (SHCT st)
                    (stat_hits st) v).

(** [for (int i = 0; i < N; i++) body(i)]: [n] counts the iterations that
    remain and [i] is the loop variable. *)
Fixpoint for_loop (n i : nat) (body : nat → M unit) : M unit :=
  match n with
  | O => ret tt
  | S n' => body i >> for_loop n' (S i) body
  end.

(** ** [InitReplacementState] (the same in both files) *)

Definition InitReplacementState : M unit :=
  stat_hits_set 0 >>
  stat_misses_set 0 >>
  for_loop NUM_CORE 0 (λ c,
    for_loop LLC_SETS 0 (λ s,
      for_loop LLC_WAYS 0 (λ w,
        rrpv_set c s w MAX_RRPV >>
        sig_set c s w 0 >>
        reused_set c s w 0))) >>
  for_loop (Z.to_nat SHCT_SIZE) 0 (λ i, SHCT_set (Z.of_nat i) SHCT_INIT).

(** The state that [InitReplacementState] leaves behind from any state
    whose arrays have their declared extents (lemma
    [InitReplacementState_run]). *)
Definition init_state : State :=
  mkState (replicate NUM_CORE (replicate LLC_SETS (replicate LLC_WAYS MAX_RRPV)))
          (replicate NUM_CORE (replicate LLC_SETS (replicate LLC_WAYS 0%Z)))
          (replicate NUM_CORE (replicate LLC_SETS (replicate LLC_WAYS 0%Z)))
          (replicate (Z.to_nat SHCT_SIZE) SHCT_INIT)
          0 0.

(** The scan [for (w = 0; w < LLC_WAYS; w++) if (repl_rrpv[cpu][set][w] ==
    MAX_RRPV) return w;] of both victim selectors; [n] counts the
    iterations that remain, [Some w] is the early return. *)
Fixpoint scan_ways (cpu set : nat) (n : nat) (w : nat) : M (option nat) :=
  match n with
  | O => ret None
  | S n' =>
      let* v := rrpv_get cpu set w in
      if (v =? MAX_RRPV)%Z then ret (Some w)
      else scan_ways cpu set n' (S w)
  end.

(** An aging loop [for (w = 0; w < LLC_WAYS; w++) if (repl_rrpv[cpu][set][w]
    < MAX_RRPV) repl_rrpv[cpu][set][w] = f(repl_rrpv[cpu][set][w]);]. *)
Fixpoint age_ways (f : Z → Z) (cpu set : nat) (n : nat) (w : nat) : M unit :=
  match n with
  | O => ret tt
  | S n' =>
      let* v := rrpv_get cpu set w in
      (if (v <? MAX_RRPV)%Z then rrpv_set cpu set w (f v) else ret tt) >>
      age_ways f cpu set n' (S w)
  end.

(** [x++] on a [uint8_t]. *)
Definition incr8 (v : Z) : Z := wrap8 (v + 1).

(** [x--] on a [uint8_t]. *)
Definition decr8 (v : Z) : Z := wrap8 (v - 1).

(** ** The improved policy, [src/new_policy.cc] *)

Module NewPolicy.

(** [sat_inc] and [sat_dec] take the counter by reference; they are
    modelled on the counter's value and applied to [SHCT[i]] by
    [SHCT_sat_inc] and [SHCT_sat_dec].  The callers pass the [int] constant
    [SHCT_MAX = 7] for [max_v], which its conversion to [uint8_t] leaves
    unchanged. *)
Definition sat_inc (c max_v : Z) : Z :=
  if (c <? max_v)%Z then incr8 c else c.

Definition sat_dec (c : Z) : Z :=
  if (c >? 0)%Z then decr8 c else c.

Definition SHCT_sat_inc (i : Z) (max_v : Z) : M unit :=
  let* c := SHCT_get i in SHCT_set i (sat_inc c max_v).

Definition SHCT_sat_dec (i : Z) : M unit :=
  let* c := SHCT_get i in SHCT_set i (sat_dec c).

(** The stronger aging of the second attempt:
    [(rrpv + 2 > MAX_RRPV) ? MAX_RRPV : rrpv + 2]. *)
Definition plus2_sat (v : Z) : Z :=
  wrap8 (if (v + 2 >? MAX_RRPV)%Z then MAX_RRPV else v + 2).

(** [for (int attempt = 0; attempt < 2; ++attempt) { ... } return 0;]
    with [n] the number of attempts that remain. *)
Fixpoint attempts (cpu set : nat) (n : nat) (attempt : Z) : M nat :=
  match n with
  | O => ret 0%nat
  | S n' =>
      let* found := scan_ways cpu set LLC_WAYS 0 in
      match found with
      | Some w => ret w
      | None =>
          (if (attempt =? 0)%Z
           then age_ways incr8 cpu set LLC_WAYS 0
           else age_ways plus2_sat cpu set LLC_WAYS 0) >>
          attempts cpu set n' (attempt + 1)
      end
  end.

(** [current_set] (a [const BLOCK *] the function never reads) is left
    out; [PC], [paddr] and [type] are not consulted. *)
Definition GetVictimInSet (cpu set : nat) (PC paddr type : Z) : M nat :=
  attempts cpu set 2 0.

Definition UpdateReplacementState
    (cpu set way : nat) (paddr PC victim_addr type hit : Z) : M unit :=
  if negb (hit =? 0)%Z then
    stat_hits_incr >>
    reused_set cpu set way 1 >>
    rrpv_set cpu set way 0 >>
    let* line_sig := sig_get cpu set way in
    let sig := wrap16 (Z.land line_sig (SHCT_SIZE - 1)) in
    if (sig <? SHCT_SIZE)%Z then SHCT_sat_inc sig SHCT_MAX else ret tt
  else
    stat_misses_incr >>
    let* line_sig := sig_get cpu set way in
    let old_sig := wrap16 (Z.land line_sig (SHCT_SIZE - 1)) in
    (if (old_sig <? SHCT_SIZE)%Z then
       let* line_reused := reused_get cpu set way in
       if negb (line_reused =? 0)%Z
       then SHCT_sat_inc old_sig SHCT_MAX
       else SHCT_sat_dec old_sig
     else ret tt) >>
    let newsig :=
      wrap16 (Z.land (wrap32 (Z.shiftr PC SIGN_SHIFT)) (SHCT_SIZE - 1)) in
    sig_set cpu set way newsig >>
    reused_set cpu set way 0 >>
    let* pred := SHCT_get newsig in
    if (pred >=? wrap8 (THRESHOLD + 2))%Z then rrpv_set cpu set way 0
    else if (pred >=? wrap8 THRESHOLD)%Z then rrpv_set cpu set way 1
    else if (pred >? 0)%Z then
      rrpv_set cpu set way
        (if (MAX_RRPV >=? 2)%Z then MAX_RRPV - 1 else MAX_RRPV)
    else rrpv_set cpu set way MAX_RRPV.

End NewPolicy.

(** ** The baseline policy,
    [src/015_ship_rrip__signature_based_hit_predictor_with_srrip.cc] *)

Module Baseline.

(** [while (true) { scan; age by +1 }].  The loop has no bound in the
    source; [fuel] bounds the number of iterations here, and the result
    [None] means that the fuel ran out before the loop returned. *)
Fixpoint victim_loop (cpu set : nat) (fuel : nat) : M (option nat) :=
  match fuel with
  | O => ret None
  | S fuel' =>
      let* found := scan_ways cpu set LLC_WAYS 0 in
      match found with
      | Some w => ret (Some w)
      | None =>
          age_ways incr8 cpu set LLC_WAYS 0 >>
          victim_loop cpu set fuel'
      end
  end.

Definition GetVictimInSet (fuel : nat) (cpu set : nat) (PC paddr type : Z)
  : M (option nat) :=
  victim_loop cpu set fuel.

Definition UpdateReplacementState
    (cpu set way : nat) (paddr PC victim_addr type hit : Z) : M unit :=
  if negb (hit =? 0)%Z then
    stat_hits_incr >>
    reused_set cpu set way 1 >>
    rrpv_set cpu set way 0
  else
    stat_misses_incr >>
    let* old_sig := sig_get cpu set way in
    let* old_r := reused_get cpu set way in
    (if negb (old_r =? 0)%Z then
       let* c := SHCT_get old_sig in
       if (c <? SHCT_MAX)%Z then SHCT_set old_sig (incr8 c) else ret tt
     else
       let* c := SHCT_get old_sig in
       if (c >? 0)%Z then SHCT_set old_sig (decr8 c) else ret tt) >>
    let newsig :=
      wrap16 (Z.land (wrap32 (Z.shiftr PC SIGN_SHIFT)) (SHCT_SIZE - 1)) in
    sig_set cpu set way newsig >>
    reused_set cpu set way 0 >>
    let* pred := SHCT_get newsig in
    if (pred >=? THRESHOLD)%Z then rrpv_set cpu set way 0
    else rrpv_set cpu set way (MAX_RRPV - 1).

End Baseline.

(** ** State invariants *)

(** The declared extent [[NUM_CORE][LLC_SETS][LLC_WAYS]]. *)
Definition shape3 (a : list (list (list Z))) : Prop :=
  length a = NUM_CORE ∧
  Forall (λ plane, length plane = LLC_SETS ∧
                   Forall (λ row : list Z, length row = LLC_WAYS) plane) a.

(** Every element of a three-dimensional array satisfies [P]. *)
Definition all3 (P : Z → Prop) (a : list (list (list Z))) : Prop :=
  Forall (Forall (Forall P)) a.

Definition dims_ok (st : State) : Prop :=
  shape3 (repl_rrpv st) ∧ shape3 (repl_sig st) ∧ shape3 (repl_reused st) ∧
  length (SHCT st) = Z.to_nat SHCT_SIZE.

Definition rrpv_bounded (st : State) : Prop :=
  all3 (λ v, 0 ≤ v ≤ MAX_RRPV)%Z (repl_rrpv st).

Definition SHCT_bounded (st : State) : Prop :=
  Forall (λ v, 0 ≤ v ≤ SHCT_MAX)%Z (SHCT st).

Definition sigs_masked (st : State) : Prop :=
  all3 (λ v, 0 ≤ v < SHCT_SIZE)%Z (repl_sig st).

Definition reused_flags (st : State) : Prop :=
  all3 (λ v, v = 0 ∨ v = 1)%Z (repl_reused st).

Definition stats_ok (st : State) : Prop :=
  (0 ≤ stat_hits st < 2 ^ 64)%Z ∧ (0 ≤ stat_misses st < 2 ^ 64)%Z.

Definition state_ok (st : State) : Prop :=
  dims_ok st ∧ rrpv_bounded st ∧ SHCT_bounded st ∧ sigs_masked st ∧
  reused_flags st ∧ stats_ok st.

Global Instance shape3_dec a : Decision (shape3 a).
Proof. unfold shape3. apply _. Defined.

Global Instance all3_dec (P : Z → Prop) `{!∀ v, Decision (P v)} a :
  Decision (all3 P a).
Proof. unfold all3. apply _. Defined.

Global Instance dims_ok_dec st : Decision (dims_ok st).
Proof. unfold dims_ok. apply _. Defined.

Global Instance state_ok_dec st : Decision (state_ok st).
Proof.
  unfold state_ok, dims_ok, rrpv_bounded, SHCT_bounded, sigs_masked,
    reused_flags, stats_ok.
  apply _.
Defined.

(** In-range indices, as the host guarantees them. *)
Definition in_range (cpu set way : nat) : Prop :=
  cpu < NUM_CORE ∧ set < LLC_SETS ∧ way < LLC_WAYS.

(** ** Reachable states *)

Module Reach.

(** States of the improved policy: [InitReplacementState], run on arrays
    of the declared extents, followed by any sequence of [GetVictimInSet]
    and [UpdateReplacementState] calls that stay inside the arrays. *)
Inductive reachable : State → Prop :=
| reach_init st0 st :
    dims_ok st0 →
    InitReplacementState st0 = Some (tt, st) →
    reachable st
| reach_victim st cpu set PC paddr type w st' :
    reachable st →
    NewPolicy.GetVictimInSet cpu set PC paddr type st = Some (w, st') →
    reachable st'
| reach_update st cpu set way paddr PC victim_addr type hit st' :
    reachable st →
    NewPolicy.UpdateReplacementState cpu set way paddr PC victim_addr type hit st
      = Some (tt, st') →
    reachable st'.

(** The same for the baseline policy; a victim selection counts when its
    loop returns. *)
Inductive baseline_reachable : State → Prop :=
| breach_init st0 st :
    dims_ok st0 →
    InitReplacementState st0 = Some (tt, st) →
    baseline_reachable st
| breach_victim st fuel cpu set PC paddr type w st' :
    baseline_reachable st →
    Baseline.GetVictimInSet fuel cpu set PC paddr type st = Some (Some w, st') →
    baseline_reachable st'
| breach_update st cpu set way paddr PC victim_addr type hit st' :
    baseline_reachable st →
    Baseline.UpdateReplacementState cpu set way paddr PC victim_addr type hit st
      = Some (tt, st') →
    baseline_reachable st'.

End Reach.

(** ** Row-level description of the victim selector

    What the loops of [GetVictimInSet] compute on the row of one set; the
    lemmas below relate the loops to these functions. *)

(** Lowest index of an element equal to [MAX_RRPV]. *)
Definition first_max (row : list Z) : option nat :=
  fst <$> list_find (λ v, v = MAX_RRPV) row.

(** One element of an aging pass. *)
Definition age (f : Z → Z) (v : Z) : Z :=
  if (v <? MAX_RRPV)%Z then f v else v.

(** Replace the row of set [(cpu, set)] in [repl_rrpv]. *)
Definition with_row (st : State) (cpu set : nat) (row : list Z) : State :=
  mkState (alter (alter (λ _, row) set) cpu (repl_rrpv st))
          (repl_sig st) (repl_reused st) (SHCT st)
          (stat_hits st) (stat_misses st).

(** The fallback of the improved selector is taken when neither scan finds
    a line at [MAX_RRPV]: not in the row as found, not after the +1 pass. *)
Definition fallback_taken (row : list Z) : bool :=
  bool_decide (first_max row = None ∧ first_max (age incr8 <$> row) = None).

(** What the improved selector returns, and the row it leaves behind. *)
Definition victim_of (row : list Z) : nat * list Z :=
  match first_max row with
  | Some w => (w, row)
  | None =>
      let row1 := age incr8 <$> row in
      match first_max row1 with
      | Some w => (w, row1)
      | None => (0, age NewPolicy.plus2_sat <$> row1)
      end
  end.

(** ** Value-level description of the updater *)

(** The index [sig & (SHCT_SIZE - 1)] stored in a [uint16_t]. *)
Definition sig_index (s : Z) : Z := wrap16 (Z.land s (SHCT_SIZE - 1)).

(** The signature of an access:
    [(uint32_t)(PC >> SIGN_SHIFT) & (SHCT_SIZE - 1)]. *)
Definition signature (PC : Z) : Z :=
  wrap16 (Z.land (wrap32 (Z.shiftr PC SIGN_SHIFT)) (SHCT_SIZE - 1)).

(** The eviction-time learning step on the counter of the old signature. *)
Definition learn (reused c : Z) : Z :=
  if negb (reused =? 0)%Z then NewPolicy.sat_inc c SHCT_MAX
  else NewPolicy.sat_dec c.

(** The four insertion tiers of the improved policy. *)
Definition insertion_rrpv (pred : Z) : Z :=
  if (pred >=? wrap8 (THRESHOLD + 2))%Z then 0
  else if (pred >=? wrap8 THRESHOLD)%Z then 1
  else if (pred >? 0)%Z then
    (if (MAX_RRPV >=? 2)%Z then MAX_RRPV - 1 else MAX_RRPV)
  else MAX_RRPV.

(** The two insertion tiers of the baseline policy. *)
Definition baseline_insertion_rrpv (pred : Z) : Z :=
  if (pred >=? THRESHOLD)%Z then 0 else MAX_RRPV - 1.

(** ** The end-to-end scenario of the specification

    Sixteen misses fill the ways of set 0 of core 0 with distinct, nonzero
    signatures; the host then asks for a victim, installs a line in it, and
    asks for a victim again. *)

Fixpoint install_ways (cpu set : nat) (n : nat) (w : nat) : M unit :=
  match n with
  | O => ret tt
  | S n' =>
      NewPolicy.UpdateReplacementState cpu set w 0 (16 * Z.of_nat (S w)) 0 0 0 >>
      install_ways cpu set n' (S w)
  end.

(** The state a computation leaves behind (the state as it was on failure). *)
Definition exec {A : Type} (m : M A) (st : State) : State :=
  match m st with
  | Some (_, st') => st'
  | None => st
  end.

(** All sixteen lines of set 0 at [rrpv = 1]. *)
Definition filled_state : State :=
  exec (install_ways 0 0 LLC_WAYS 0) init_state.

(** After the first victim selection and the installation in way 0:
    way 0 at [rrpv = 1], every other way at [rrpv = 4]. *)
Definition refilled_state : State :=
  exec (let* w := NewPolicy.GetVictimInSet 0 0 0 0 0 in
        NewPolicy.UpdateReplacementState 0 0 w 0 1600 0 0 0) filled_state.

(** Repeated evictions: a miss update on each of the given lines in turn,
    a line being [(cpu, set, way)] paired with the [PC] of the access that
    replaces it. *)
Fixpoint evict_lines (lines : list (nat * nat * nat * Z)) : M unit :=
  match lines with
  | [] => ret tt
  | (cpu, set, way, PC) :: rest =>
      NewPolicy.UpdateReplacementState cpu set way 0 PC 0 0 0 >>
      evict_lines rest
  end.

(** The line [l] holds signature [s] and reuse flag [r] in state [st]. *)
Definition line_holds (st : State) (s r : Z) (l : nat * nat * nat * Z) : Prop :=
  let '(cpu, set, way, _) := l in
  rd3 (repl_sig st) cpu set way = Some s ∧
  rd3 (repl_reused st) cpu set way = Some r.

(** ** Progress of the initialisation loops *)

(** The cell [(c', s', w')] is written before the loops reach [(c, s, w)]. *)
Definition written_before (c s w c' s' w' : nat) : Prop :=
  c' < c ∨ (c' = c ∧ (s' < s ∨ (s' = s ∧ w' < w))).

(** The loop invariant of the three nested loops of
    [InitReplacementState]. *)
Definition cells_init (c s w : nat) (st : State) : Prop :=
  dims_ok st ∧ stat_hits st = 0%Z ∧ stat_misses st = 0%Z ∧
  ∀ c' s' w',
    in_range c' s' w' → written_before c s w c' s' w' →
    rd3 (repl_rrpv st) c' s' w' = Some MAX_RRPV ∧
    rd3 (repl_sig st) c' s' w' = Some 0%Z ∧
    rd3 (repl_reused st) c' s' w' = Some 0%Z.

(** ** Runs of the improved policy

    The calls the host makes after initialisation: victim selections and
    updates, in any order. *)

Inductive op : Type :=
| OpVictim (cpu set : nat) (PC paddr type : Z)
| OpUpdate (cpu set way : nat) (paddr PC victim_addr type hit : Z).

Definition run_op (o : op) : M unit :=
  match o with
  | OpVictim cpu set PC paddr type =>
      let* w := NewPolicy.GetVictimInSet cpu set PC paddr type in ret tt
  | OpUpdate cpu set way paddr PC victim_addr type hit =>
      NewPolicy.UpdateReplacementState cpu set way paddr PC victim_addr type hit
  end.

Fixpoint run_ops (ops : list op) : M unit :=
  match ops with
  | [] => ret tt
  | o :: rest => run_op o >> run_ops rest
  end.

Definition op_in_range (o : op) : Prop :=
  match o with
  | OpVictim cpu set _ _ _ => cpu < NUM_CORE ∧ set < LLC_SETS
  | OpUpdate cpu set way _ _ _ _ _ => in_range cpu set way
  end.

(** The number of updates of a run with [hit != 0], and with [hit == 0]. *)
Fixpoint count_hits (ops : list op) : Z :=
  match ops with
  | [] => 0
  | OpUpdate _ _ _ _ _ _ _ hit :: rest =>
      (if (hit =? 0)%Z then 0 else 1) + count_hits rest
  | OpVictim _ _ _ _ _ :: rest => count_hits rest
  end.

Fixpoint count_misses (ops : list op) : Z :=
  match ops with
  | [] => 0
  | OpUpdate _ _ _ _ _ _ _ hit :: rest =>
      (if (hit =? 0)%Z then 1 else 0) + count_misses rest
  | OpVictim _ _ _ _ _ :: rest => count_misses rest
  end.

(** A state no run reaches, which the [uint8_t] cells nevertheless admit:
    every line of set 0 of core 0 above [MAX_RRPV]. *)
Definition stuck_state : State :=
  with_row init_state 0 0 (replicate LLC_WAYS 8%Z).

(** A set that needs the +1 pass: from [filled_state], a miss on way 2 of
    set 0 whose signature is the one the line already holds inserts the
    line at [rrpv = MAX_RRPV - 1]; the row of set 0 is then
    [1; 1; 6; 1; ...; 1]. *)
Definition aged_state : State :=
  exec (NewPolicy.UpdateReplacementState 0 0 2 0 48 0 0 0) filled_state.

(** * Proofs *)

(** ** Arrays *)

Section arrays.
Implicit Types (a : list (list (list Z))) (row : list Z) (c s w : nat).

Lemma alter_at_lookup {A} (f : A → A) (l : list A) (i : nat) (x : A) :
  l !! i = Some x → f x = x → alter f i l = l.
Proof.
  intros Hl Hf. apply list_eq. intros j.
  destruct (decide (i = j)) as [->|Hne].
  - rewrite list_lookup_alter_eq, Hl. simpl. by rewrite Hf.
  - by rewrite list_lookup_alter_ne.
Qed.

Lemma rd3_row3 a c s w :
  rd3 a c s w = match row3 a c s with Some row => row !! w | None => None end.
Proof. unfold rd3, row3. by destruct (a !! c). Qed.

Lemma row3_rd3 a c s w row :
  row3 a c s = Some row → rd3 a c s w = row !! w.
Proof. intros H. by rewrite rd3_row3, H. Qed.

Lemma rd3_Some_row3 a c s w v :
  rd3 a c s w = Some v → ∃ row, row3 a c s = Some row ∧ row !! w = Some v.
Proof. rewrite rd3_row3. destruct (row3 a c s); naive_solver. Qed.

Lemma row3_alter a c s (f : list Z → list Z) :
  row3 (alter (alter f s) c a) c s = f <$> row3 a c s.
Proof.
  unfold row3. rewrite list_lookup_alter_eq.
  destruct (a !! c) as [plane|]; simpl; [|done].
  by rewrite list_lookup_alter_eq.
Qed.

Lemma row3_alter_ne a c s c' s' (f : list Z → list Z) :
  (c', s') ≠ (c, s) → row3 (alter (alter f s) c a) c' s' = row3 a c' s'.
Proof.
  intros Hne. unfold row3.
  destruct (decide (c = c')) as [->|Hc].
  - rewrite list_lookup_alter_eq.
    destruct (a !! c') as [plane|]; simpl; [|done].
    rewrite list_lookup_alter_ne; [done|congruence].
  - by rewrite list_lookup_alter_ne.
Qed.

Lemma alter3_alter3 a c s (f g : list Z → list Z) :
  alter (alter f s) c (alter (alter g s) c a) = alter (alter (f ∘ g) s) c a.
Proof.
  rewrite list_alter_alter_eq. apply list_alter_ext; [|done].
  intros plane _. simpl. by rewrite list_alter_alter_eq.
Qed.

Lemma alter3_id a c s row (f : list Z → list Z) :
  row3 a c s = Some row → f row = row → alter (alter f s) c a = a.
Proof.
  unfold row3. intros Hrow Hf.
  destruct (a !! c) as [plane|] eqn:Hc; [|done].
  apply (alter_at_lookup _ _ _ plane); [done|].
  by apply (alter_at_lookup _ _ _ row).
Qed.

(** Reads after a write. *)
Lemma wr3_Some a c s w v v0 :
  rd3 a c s w = Some v0 → wr3 a c s w v = Some (alter (alter (<[w := v]>) s) c a).
Proof. unfold wr3. by intros ->. Qed.

Lemma wr3_inv a c s w v a' :
  wr3 a c s w v = Some a' →
  is_Some (rd3 a c s w) ∧ a' = alter (alter (<[w := v]>) s) c a.
Proof. unfold wr3. destruct (rd3 a c s w); naive_solver. Qed.

Lemma rd3_alter_eq a c s w v v0 :
  rd3 a c s w = Some v0 →
  rd3 (alter (alter (<[w := v]>) s) c a) c s w = Some v.
Proof.
  intros (row & Hrow & Hw)%rd3_Some_row3.
  rewrite rd3_row3, row3_alter, Hrow. simpl.
  apply list_lookup_insert_eq. by eapply lookup_lt_Some.
Qed.

Lemma rd3_alter_ne a c s w v c' s' w' :
  (c', s', w') ≠ (c, s, w) →
  rd3 (alter (alter (<[w := v]>) s) c a) c' s' w' = rd3 a c' s' w'.
Proof.
  intros Hne. rewrite !rd3_row3.
  destruct (decide ((c', s') = (c, s))) as [[= -> ->]|Hcs].
  - rewrite row3_alter. destruct (row3 a c s); simpl; [|done].
    apply list_lookup_insert_ne. congruence.
  - by rewrite row3_alter_ne.
Qed.

(** Shape and element-wise invariants. *)
Lemma shape3_row3 a c s :
  shape3 a → c < NUM_CORE → s < LLC_SETS →
  ∃ row, row3 a c s = Some row ∧ length row = LLC_WAYS.
Proof.
  intros [Hlen Hall] Hc Hs. unfold row3.
  destruct (lookup_lt_is_Some_2 a c) as [plane Hplane]; [lia|].
  rewrite Hplane.
  destruct (proj1 (Forall_lookup _ _) Hall _ _ Hplane) as [Hl Hrows].
  destruct (lookup_lt_is_Some_2 plane s) as [row Hrow]; [lia|].
  exists row. split; [done|].
  by apply (proj1 (Forall_lookup _ _) Hrows _ _ Hrow).
Qed.

Lemma shape3_rd3 a c s w :
  shape3 a → in_range c s w → is_Some (rd3 a c s w).
Proof.
  intros Ha (Hc & Hs & Hw).
  destruct (shape3_row3 a c s Ha Hc Hs) as (row & Hrow & Hlen).
  rewrite (row3_rd3 _ _ _ _ _ Hrow). apply lookup_lt_is_Some_2. lia.
Qed.

Lemma shape3_row3_length a c s row :
  shape3 a → row3 a c s = Some row → length row = LLC_WAYS.
Proof.
  intros [_ Hall]. unfold row3.
  destruct (a !! c) as [plane|] eqn:Hc; [|done]. intros Hrow.
  destruct (proj1 (Forall_lookup _ _) Hall _ _ Hc) as [_ Hrows].
  by apply (proj1 (Forall_lookup _ _) Hrows _ _ Hrow).
Qed.

Lemma shape3_rd3_range a c s w v :
  shape3 a → rd3 a c s w = Some v → in_range c s w.
Proof.
  intros Ha Hrd. pose proof Ha as [Hlen Hall]. unfold in_range.
  destruct (rd3_Some_row3 _ _ _ _ _ Hrd) as (row & Hrow & Hw).
  pose proof (shape3_row3_length _ _ _ _ Ha Hrow) as Hl.
  apply lookup_lt_Some in Hw. unfold row3 in Hrow.
  destruct (a !! c) as [plane|] eqn:Hc; [|done].
  destruct (proj1 (Forall_lookup _ _) Hall _ _ Hc) as [Hpl _].
  apply lookup_lt_Some in Hc, Hrow. lia.
Qed.

Lemma shape3_alter a c s (f : list Z → list Z) :
  shape3 a → (∀ row, length row = LLC_WAYS → length (f row) = LLC_WAYS) →
  shape3 (alter (alter f s) c a).
Proof.
  intros [Hlen Hall] Hf. split; [by rewrite length_alter|].
  apply Forall_alter; [done|]. intros plane _ [Hl Hrows].
  split; [by rewrite length_alter|].
  apply Forall_alter; [done|]. intros row _ Hrow. by apply Hf.
Qed.

Lemma all3_alter (P : Z → Prop) a c s (f : list Z → list Z) :
  all3 P a → (∀ row, Forall P row → Forall P (f row)) →
  all3 P (alter (alter f s) c a).
Proof.
  intros Hall Hf. apply Forall_alter; [done|]. intros plane _ Hplane.
  apply Forall_alter; [done|]. intros row _. apply Hf.
Qed.

Lemma all3_rd3 (P : Z → Prop) a c s w v :
  all3 P a → rd3 a c s w = Some v → P v.
Proof.
  intros Hall (row & Hrow & Hw)%rd3_Some_row3. unfold row3 in Hrow.
  destruct (a !! c) as [plane|] eqn:Hc; [|done].
  pose proof (proj1 (Forall_lookup _ _) Hall _ _ Hc) as Hplane.
  pose proof (proj1 (Forall_lookup _ _) Hplane _ _ Hrow) as Hr.
  by apply (proj1 (Forall_lookup _ _) Hr _ _ Hw).
Qed.

Lemma all3_row3 (P : Z → Prop) a c s row :
  all3 P a → row3 a c s = Some row → Forall P row.
Proof.
  intros Hall Hrow. unfold row3 in Hrow.
  destruct (a !! c) as [plane|] eqn:Hc; [|done].
  pose proof (proj1 (Forall_lookup _ _) Hall _ _ Hc) as Hplane.
  by apply (proj1 (Forall_lookup _ _) Hplane _ _ Hrow).
Qed.

Lemma rd1_Some (t : list Z) (i : Z) :
  (0 ≤ i < Z.of_nat (length t))%Z → is_Some (rd1 t i).
Proof.
  intros Hi. unfold rd1. rewrite bool_decide_eq_true_2 by lia.
  apply lookup_lt_is_Some_2. lia.
Qed.

Lemma rd1_inv (t : list Z) (i v : Z) :
  rd1 t i = Some v → (0 ≤ i)%Z ∧ t !! Z.to_nat i = Some v.
Proof. unfold rd1. case_bool_decide; naive_solver. Qed.

Lemma rd1_insert_eq (t : list Z) (i v v0 : Z) :
  rd1 t i = Some v0 → rd1 (<[Z.to_nat i := v]> t) i = Some v.
Proof.
  intros [Hi Hl]%rd1_inv. unfold rd1. rewrite bool_decide_eq_true_2 by done.
  apply list_lookup_insert_eq. by eapply lookup_lt_Some.
Qed.

Lemma rd1_insert_ne (t : list Z) (i j v : Z) :
  (0 ≤ i)%Z → j ≠ i → rd1 (<[Z.to_nat i := v]> t) j = rd1 t j.
Proof.
  intros Hi Hne. unfold rd1. case_bool_decide; [|done].
  apply list_lookup_insert_ne. lia.
Qed.

End arrays.

(** ** Running computations *)

Lemma bind_run {A B} (m : M A) (k : A → M B) st a st1 :
  m st = Some (a, st1) → bind m k st = k a st1.
Proof. unfold bind. by intros ->. Qed.

Lemma bind_inv {A B} (m : M A) (k : A → M B) st b st' :
  bind m k st = Some (b, st') →
  ∃ a st1, m st = Some (a, st1) ∧ k a st1 = Some (b, st').
Proof. unfold bind. destruct (m st) as [[a st1]|]; naive_solver. Qed.

Lemma rrpv_get_run c s w st v :
  rd3 (repl_rrpv st) c s w = Some v → rrpv_get c s w st = Some (v, st).
Proof. unfold rrpv_get. by intros ->. Qed.

Lemma rrpv_set_run c s w v st v0 :
  rd3 (repl_rrpv st) c s w = Some v0 →
  rrpv_set c s w v st =
    Some (tt, mkState (alter (alter (<[w := v]>) s) c (repl_rrpv st))
                (repl_sig st) (repl_reused st) (SHCT st)
                (stat_hits st) (stat_misses st)).
Proof. unfold rrpv_set. intros H. by rewrite (wr3_Some _ _ _ _ _ _ H). Qed.

Lemma sig_get_run c s w st v :
  rd3 (repl_sig st) c s w = Some v → sig_get c s w st = Some (v, st).
Proof. unfold sig_get. by intros ->. Qed.

Lemma sig_set_run c s w v st v0 :
  rd3 (repl_sig st) c s w = Some v0 →
  sig_set c s w v st =
    Some (tt, mkState (repl_rrpv st)
                (alter (alter (<[w := v]>) s) c (repl_sig st))
                (repl_reused st) (SHCT st) (stat_hits st) (stat_misses st)).
Proof. unfold sig_set. intros H. by rewrite (wr3_Some _ _ _ _ _ _ H). Qed.

Lemma reused_get_run c s w st v :
  rd3 (repl_reused st) c s w = Some v → reused_get c s w st = Some (v, st).
Proof. unfold reused_get. by intros ->. Qed.

Lemma reused_set_run c s w v st v0 :
  rd3 (repl_reused st) c s w = Some v0 →
  reused_set c s w v st =
    Some (tt, mkState (repl_rrpv st) (repl_sig st)
                (alter (alter (<[w := v]>) s) c (repl_reused st))
                (SHCT st) (stat_hits st) (stat_misses st)).
Proof. unfold reused_set. intros H. by rewrite (wr3_Some _ _ _ _ _ _ H). Qed.

Lemma SHCT_get_run i st v :
  rd1 (SHCT st) i = Some v → SHCT_get i st = Some (v, st).
Proof. unfold SHCT_get. by intros ->. Qed.

Lemma SHCT_set_run i v st v0 :
  rd1 (SHCT st) i = Some v0 →
  SHCT_set i v st =
    Some (tt, mkState (repl_rrpv st) (repl_sig st) (repl_reused st)
                (<[Z.to_nat i := v]> (SHCT st))
                (stat_hits st) (stat_misses st)).
Proof. unfold SHCT_set, wr1. by intros ->. Qed.

(** ** The loops of the victim selector *)

Lemma with_row_same st cpu set row :
  row3 (repl_rrpv st) cpu set = Some row → with_row st cpu set row = st.
Proof.
  intros Hrow. unfold with_row.
  rewrite (alter3_id _ _ _ row); [by destruct st|done|done].
Qed.

Lemma row3_with_row st cpu set row row' :
  row3 (repl_rrpv st) cpu set = Some row →
  row3 (repl_rrpv (with_row st cpu set row')) cpu set = Some row'.
Proof. intros Hrow. simpl. by rewrite row3_alter, Hrow. Qed.

Lemma first_max_cons v row :
  first_max (v :: row) =
    if (v =? MAX_RRPV)%Z then Some 0 else S <$> first_max row.
Proof.
  unfold first_max. simpl. case_decide as Hv.
  - by rewrite (proj2 (Z.eqb_eq _ _) Hv).
  - rewrite (proj2 (Z.eqb_neq _ _) Hv), <- !option_fmap_compose.
    by apply option_fmap_ext; intros [].
Qed.

Lemma scan_ways_spec cpu set st row :
  row3 (repl_rrpv st) cpu set = Some row →
  ∀ n w, w + n = length row →
    scan_ways cpu set n w st = Some ((λ i, w + i) <$> first_max (drop w row), st).
Proof.
  intros Hrow. induction n as [|n IH]; intros w Hw.
  - rewrite drop_ge by lia. done.
  - destruct (lookup_lt_is_Some_2 row w) as [v Hv]; [lia|].
    simpl. rewrite (bind_run _ _ _ v st).
    2:{ apply rrpv_get_run. by rewrite (row3_rd3 _ _ _ _ _ Hrow). }
    rewrite (drop_S _ _ _ Hv), first_max_cons.
    destruct (v =? MAX_RRPV)%Z.
    + simpl. unfold ret. do 3 f_equal. lia.
    + rewrite IH by lia. rewrite <- option_fmap_compose.
      do 2 f_equal. apply option_fmap_ext. intros i. simpl. lia.
Qed.

Lemma scan_ways_all cpu set st row :
  row3 (repl_rrpv st) cpu set = Some row → length row = LLC_WAYS →
  scan_ways cpu set LLC_WAYS 0 st = Some (first_max row, st).
Proof.
  intros Hrow Hlen.
  rewrite (scan_ways_spec _ _ _ _ Hrow) by (simpl; lia).
  rewrite drop_0. by rewrite option_fmap_id.
Qed.

Lemma age_ways_spec f cpu set :
  ∀ n w st row,
    row3 (repl_rrpv st) cpu set = Some row → w + n = length row →
    age_ways f cpu set n w st =
      Some (tt, with_row st cpu set (take w row ++ (age f <$> drop w row))).
Proof.
  induction n as [|n IH]; intros w st row Hrow Hw.
  - rewrite drop_ge, take_ge, app_nil_r by lia.
    simpl. unfold ret. by rewrite with_row_same.
  - destruct (lookup_lt_is_Some_2 row w) as [v Hv]; [lia|].
    assert (rd3 (repl_rrpv st) cpu set w = Some v) as Hrd
      by (by rewrite (row3_rd3 _ _ _ _ _ Hrow)).
    simpl. rewrite (bind_run _ _ _ v st) by (by apply rrpv_get_run).
    set (st1 := mkState (alter (alter (<[w := age f v]>) set) cpu (repl_rrpv st))
                  (repl_sig st) (repl_reused st) (SHCT st)
                  (stat_hits st) (stat_misses st)).
    rewrite (bind_run _ _ _ tt st1).
    2:{ unfold st1, age. destruct (v <? MAX_RRPV)%Z.
        - by apply (rrpv_set_run _ _ _ _ _ v).
        - unfold ret. f_equal. f_equal.
          rewrite (alter3_id _ _ _ row); [by destruct st|done|].
          by apply list_insert_id. }
    rewrite (IH (S w) st1 (<[w := age f v]> row)).
    2:{ unfold st1. simpl. by rewrite row3_alter, Hrow. }
    2:{ rewrite length_insert. lia. }
    f_equal. f_equal. unfold with_row, st1. simpl.
    rewrite alter3_alter3. f_equal.
    apply list_alter_ext; [|done]. intros plane _.
    apply list_alter_ext; [|done]. intros r _. simpl.
    rewrite (take_S_r (<[w:=age f v]> row) w (age f v)).
    2:{ apply list_lookup_insert_eq. by eapply lookup_lt_Some. }
    rewrite take_insert_ge, drop_insert_lt by lia.
    rewrite (drop_S _ _ _ Hv). simpl. by rewrite <- app_assoc.
Qed.

Lemma age_ways_all f cpu set st row :
  row3 (repl_rrpv st) cpu set = Some row → length row = LLC_WAYS →
  age_ways f cpu set LLC_WAYS 0 st = Some (tt, with_row st cpu set (age f <$> row)).
Proof.
  intros Hrow Hlen.
  rewrite (age_ways_spec _ _ _ _ _ _ _ Hrow) by (simpl; lia).
  by rewrite take_0, drop_0.
Qed.

Lemma with_row_with_row st cpu set row row' :
  with_row (with_row st cpu set row) cpu set row' = with_row st cpu set row'.
Proof. unfold with_row. simpl. by rewrite alter3_alter3. Qed.

Lemma GetVictimInSet_run cpu set PC paddr type st row :
  row3 (repl_rrpv st) cpu set = Some row → length row = LLC_WAYS →
  NewPolicy.GetVictimInSet cpu set PC paddr type st =
    Some (fst (victim_of row), with_row st cpu set (snd (victim_of row))).
Proof.
  intros Hrow Hlen. unfold NewPolicy.GetVictimInSet, victim_of.
  cbn [NewPolicy.attempts].
  rewrite (bind_run _ _ _ _ _ (scan_ways_all _ _ _ _ Hrow Hlen)).
  destruct (first_max row) as [w|].
  { simpl. by rewrite with_row_same. }
  replace (0 =? 0)%Z with true by done.
  rewrite (bind_run _ _ _ _ _ (age_ways_all _ _ _ _ _ Hrow Hlen)).
  set (row1 := age incr8 <$> row).
  assert (length row1 = LLC_WAYS) as Hlen1 by (unfold row1; by rewrite length_fmap).
  pose proof (row3_with_row _ _ _ _ row1 Hrow) as Hrow1.
  rewrite (bind_run _ _ _ _ _ (scan_ways_all _ _ _ _ Hrow1 Hlen1)).
  destruct (first_max row1) as [w|]; [done|].
  replace (0 + 1 =? 0)%Z with false by done.
  rewrite (bind_run _ _ _ _ _ (age_ways_all _ _ _ _ _ Hrow1 Hlen1)).
  simpl. unfold ret. by rewrite with_row_with_row.
Qed.

Lemma GetVictimInSet_inv cpu set PC paddr type st w st' :
  NewPolicy.GetVictimInSet cpu set PC paddr type st = Some (w, st') →
  is_Some (row3 (repl_rrpv st) cpu set).
Proof.
  unfold NewPolicy.GetVictimInSet. cbn [NewPolicy.attempts].
  intros (found & st1 & Hscan & _)%bind_inv.
  unfold LLC_WAYS in Hscan. cbn [scan_ways] in Hscan.
  apply bind_inv in Hscan as (v & st2 & Hget & _).
  unfold rrpv_get in Hget.
  destruct (rd3 (repl_rrpv st) cpu set 0) eqn:Hrd; [|done].
  apply rd3_Some_row3 in Hrd as (row & -> & _). by eexists.
Qed.

(** ** Masks *)

Lemma land_mask (s : Z) : Z.land s (SHCT_SIZE - 1) = (s mod 1024)%Z.
Proof. change (SHCT_SIZE - 1)%Z with (Z.ones 10). by rewrite Z.land_ones. Qed.

Lemma sig_index_mod (s : Z) : sig_index s = (s mod 1024)%Z.
Proof.
  unfold sig_index, wrap16. rewrite land_mask.
  apply Z.mod_small. pose proof (Z.mod_pos_bound s 1024). lia.
Qed.

Lemma sig_index_range (s : Z) : (0 ≤ sig_index s < SHCT_SIZE)%Z.
Proof.
  rewrite sig_index_mod. unfold SHCT_SIZE.
  pose proof (Z.mod_pos_bound s 1024). lia.
Qed.

Lemma sig_index_id (s : Z) : (0 ≤ s < SHCT_SIZE)%Z → sig_index s = s.
Proof. intros Hs. rewrite sig_index_mod. by apply Z.mod_small. Qed.

Lemma signature_range (PC : Z) : (0 ≤ signature PC < SHCT_SIZE)%Z.
Proof. apply (sig_index_range (wrap32 (Z.shiftr PC SIGN_SHIFT))). Qed.

(** The cast to [uint32_t] does not change the masked value. *)
Lemma signature_spec (PC : Z) :
  signature PC = Z.land (Z.shiftr PC SIGN_SHIFT) (SHCT_SIZE - 1).
Proof.
  transitivity (sig_index (Z.shiftr PC SIGN_SHIFT)).
  - unfold signature, sig_index, wrap32. f_equal.
    rewrite <- (Z.land_ones _ 32) by lia.
    rewrite <- Z.land_assoc. done.
  - by rewrite sig_index_mod, land_mask.
Qed.

(** ** The updater, step by step *)

Ltac run_step lem :=
  erewrite bind_run by (eapply lem; eassumption);
  cbn [repl_rrpv repl_sig repl_reused SHCT stat_hits stat_misses].

Lemma SHCT_sat_inc_run i st c :
  rd1 (SHCT st) i = Some c →
  NewPolicy.SHCT_sat_inc i SHCT_MAX st =
    Some (tt, mkState (repl_rrpv st) (repl_sig st) (repl_reused st)
                (<[Z.to_nat i := NewPolicy.sat_inc c SHCT_MAX]> (SHCT st))
                (stat_hits st) (stat_misses st)).
Proof.
  intros Hc. unfold NewPolicy.SHCT_sat_inc.
  rewrite (bind_run _ _ _ _ _ (SHCT_get_run _ _ _ Hc)).
  by eapply SHCT_set_run.
Qed.

Lemma SHCT_sat_dec_run i st c :
  rd1 (SHCT st) i = Some c →
  NewPolicy.SHCT_sat_dec i st =
    Some (tt, mkState (repl_rrpv st) (repl_sig st) (repl_reused st)
                (<[Z.to_nat i := NewPolicy.sat_dec c]> (SHCT st))
                (stat_hits st) (stat_misses st)).
Proof.
  intros Hc. unfold NewPolicy.SHCT_sat_dec.
  rewrite (bind_run _ _ _ _ _ (SHCT_get_run _ _ _ Hc)).
  by eapply SHCT_set_run.
Qed.

Lemma Update_hit_run st cpu set way paddr PC victim_addr type hit v s r c :
  hit ≠ 0%Z →
  rd3 (repl_rrpv st) cpu set way = Some v →
  rd3 (repl_sig st) cpu set way = Some s →
  rd3 (repl_reused st) cpu set way = Some r →
  rd1 (SHCT st) (sig_index s) = Some c →
  NewPolicy.UpdateReplacementState cpu set way paddr PC victim_addr type hit st =
    Some (tt, mkState
                (alter (alter (<[way := 0%Z]>) set) cpu (repl_rrpv st))
                (repl_sig st)
                (alter (alter (<[way := 1%Z]>) set) cpu (repl_reused st))
                (<[Z.to_nat (sig_index s) := NewPolicy.sat_inc c SHCT_MAX]> (SHCT st))
                (wrap64 (stat_hits st + 1)) (stat_misses st)).
Proof.
  intros Hhit Hv Hs Hr Hc. unfold NewPolicy.UpdateReplacementState.
  rewrite (proj2 (Z.eqb_neq _ _) Hhit). cbn [negb].
  unfold stat_hits_incr at 1. rewrite (bind_run _ _ _ tt _ eq_refl).
  run_step reused_set_run. run_step rrpv_set_run. run_step sig_get_run.
  fold (sig_index s).
  rewrite (proj2 (Z.ltb_lt _ _) (proj2 (sig_index_range s))).
  by erewrite SHCT_sat_inc_run by eassumption.
Qed.

Lemma Update_miss_run st cpu set way paddr PC victim_addr type v s r c pred :
  rd3 (repl_rrpv st) cpu set way = Some v →
  rd3 (repl_sig st) cpu set way = Some s →
  rd3 (repl_reused st) cpu set way = Some r →
  rd1 (SHCT st) (sig_index s) = Some c →
  rd1 (<[Z.to_nat (sig_index s) := learn r c]> (SHCT st)) (signature PC) = Some pred →
  NewPolicy.UpdateReplacementState cpu set way paddr PC victim_addr type 0 st =
    Some (tt, mkState
                (alter (alter (<[way := insertion_rrpv pred]>) set) cpu (repl_rrpv st))
                (alter (alter (<[way := signature PC]>) set) cpu (repl_sig st))
                (alter (alter (<[way := 0%Z]>) set) cpu (repl_reused st))
                (<[Z.to_nat (sig_index s) := learn r c]> (SHCT st))
                (stat_hits st) (wrap64 (stat_misses st + 1))).
Proof.
  intros Hv Hs Hr Hc Hpred. unfold NewPolicy.UpdateReplacementState.
  cbn [Z.eqb negb].
  unfold stat_misses_incr at 1. rewrite (bind_run _ _ _ tt _ eq_refl).
  run_step sig_get_run. fold (sig_index s).
  rewrite (proj2 (Z.ltb_lt _ _) (proj2 (sig_index_range s))).
  rewrite (bind_run _ _ _ tt
             (mkState (repl_rrpv st) (repl_sig st) (repl_reused st)
                (<[Z.to_nat (sig_index s) := learn r c]> (SHCT st))
                (stat_hits st) (wrap64 (stat_misses st + 1)))).
  2:{ run_step reused_get_run. unfold learn.
      destruct (negb (r =? 0)%Z).
      - by erewrite SHCT_sat_inc_run by eassumption.
      - by erewrite SHCT_sat_dec_run by eassumption. }
  cbn [repl_rrpv repl_sig repl_reused SHCT stat_hits stat_misses].
  fold (signature PC).
  run_step sig_set_run. run_step reused_set_run.
  fold (learn r c). run_step SHCT_get_run.
  unfold insertion_rrpv.
  destruct (pred >=? wrap8 (THRESHOLD + 2))%Z; [by eapply rrpv_set_run|].
  destruct (pred >=? wrap8 THRESHOLD)%Z; [by eapply rrpv_set_run|].
  destruct (pred >? 0)%Z; by eapply rrpv_set_run.
Qed.

Lemma Update_inv st cpu set way paddr PC victim_addr type hit st' :
  NewPolicy.UpdateReplacementState cpu set way paddr PC victim_addr type hit st
    = Some (tt, st') →
  is_Some (rd3 (repl_rrpv st) cpu set way) ∧
  is_Some (rd3 (repl_sig st) cpu set way) ∧
  is_Some (rd3 (repl_reused st) cpu set way).
Proof.
  unfold NewPolicy.UpdateReplacementState. destruct (negb (hit =? 0)%Z).
  - intros ([] & st1 & [= <-] & H)%bind_inv.
    apply bind_inv in H as ([] & st2 & Hreused & H).
    apply bind_inv in H as ([] & st3 & Hrrpv & H).
    apply bind_inv in H as (s & st4 & Hsig & _).
    unfold reused_set in Hreused. simpl in Hreused.
    destruct (wr3 _ _ _ _ _) as [a|] eqn:Hwr in Hreused; [|done].
    apply wr3_inv in Hwr as [Hr ->]. injection Hreused as <-.
    unfold rrpv_set in Hrrpv. simpl in Hrrpv.
    destruct (wr3 _ _ _ _ _) as [a|] eqn:Hwr in Hrrpv; [|done].
    apply wr3_inv in Hwr as [Hv ->]. injection Hrrpv as <-.
    unfold sig_get in Hsig. simpl in Hsig.
    destruct (rd3 (repl_sig st) cpu set way) eqn:Hs; [|done].
    eauto.
  - intros ([] & st1 & [= <-] & H)%bind_inv.
    apply bind_inv in H as (s & st2 & Hsig & H).
    unfold sig_get in Hsig. simpl in Hsig.
    destruct (rd3 (repl_sig st) cpu set way) eqn:Hs; [|done].
    injection Hsig as <- <-.
    apply bind_inv in H as ([] & st3 & Hlearn & H).
    apply bind_inv in H as ([] & st4 & Hss & H).
    apply bind_inv in H as ([] & st5 & Hrs & H).
    apply bind_inv in H as (pred & st6 & Hget & H).
    assert (repl_reused st3 = repl_reused st ∧ repl_rrpv st3 = repl_rrpv st)
      as [Hre3 Hrr3].
    { revert Hlearn. clear. intros Hlearn.
      destruct (_ <? _)%Z; [|by injection Hlearn as <-].
      apply bind_inv in Hlearn as (r & st2 & Hget & H).
      unfold reused_get in Hget. simpl in Hget.
      destruct (rd3 _ _ _ _); [|done]. injection Hget as <- <-.
      unfold NewPolicy.SHCT_sat_inc, NewPolicy.SHCT_sat_dec in H.
      destruct (negb _);
        apply bind_inv in H as (c & st4 & Hc & H);
        unfold SHCT_get in Hc; destruct (rd1 _ _); try done;
        injection Hc as <- <-; unfold SHCT_set in H;
        destruct (wr1 _ _ _); try done; by injection H as <-. }
    unfold sig_set in Hss. destruct (wr3 _ _ _ _ _) as [a|]; [|done].
    injection Hss as <-.
    unfold reused_set in Hrs. simpl in Hrs. rewrite Hre3 in Hrs.
    destruct (wr3 _ _ _ _ _) as [a'|] eqn:Hwr in Hrs; [|done].
    apply wr3_inv in Hwr as [Hr ->]. injection Hrs as <-.
    unfold SHCT_get in Hget. simpl in Hget.
    destruct (rd1 _ _); [|done]. injection Hget as <- <-.
    assert (is_Some (rd3 (repl_rrpv st) cpu set way)) as Hv.
    { rewrite <- Hrr3. revert H. clear.
      assert (∀ x st0, rrpv_set cpu set way x st0 = Some (tt, st') →
                       is_Some (rd3 (repl_rrpv st0) cpu set way)) as Hset.
      { intros x st0 Hx. unfold rrpv_set in Hx.
        destruct (wr3 _ _ _ _ _) eqn:Hwr; [|done].
        by apply wr3_inv in Hwr as [? _]. }
      simpl in Hset.
      repeat (destruct (_ : bool)); intros H; by apply Hset in H. }
    eauto.
Qed.

(** ** Saturating arithmetic *)

Lemma MAX_RRPV_eq : MAX_RRPV = 7%Z.
Proof. reflexivity. Qed.

Lemma sat_inc_min (c : Z) :
  (0 ≤ c ≤ SHCT_MAX)%Z → NewPolicy.sat_inc c SHCT_MAX = Z.min (c + 1) SHCT_MAX.
Proof.
  unfold NewPolicy.sat_inc, incr8, wrap8, SHCT_MAX. intros Hc.
  destruct (Z.ltb_spec c 7); [|lia].
  rewrite Z.mod_small by lia. lia.
Qed.

Lemma sat_dec_max (c : Z) :
  (0 ≤ c ≤ SHCT_MAX)%Z → NewPolicy.sat_dec c = Z.max (c - 1) 0.
Proof.
  unfold NewPolicy.sat_dec, decr8, wrap8, SHCT_MAX. intros Hc.
  destruct (Z.gtb_spec c 0); [|lia].
  rewrite Z.mod_small by lia. lia.
Qed.

Lemma learn_bounded (r c : Z) :
  (0 ≤ c ≤ SHCT_MAX)%Z → (0 ≤ learn r c ≤ SHCT_MAX)%Z.
Proof.
  intros Hc. unfold learn.
  destruct (negb _); [rewrite sat_inc_min by done|rewrite sat_dec_max by done];
    unfold SHCT_MAX in *; lia.
Qed.

Lemma insertion_rrpv_bounded (pred : Z) : (0 ≤ insertion_rrpv pred ≤ MAX_RRPV)%Z.
Proof.
  unfold insertion_rrpv. rewrite MAX_RRPV_eq.
  repeat (destruct (_ : bool)); simpl; lia.
Qed.

Lemma age_incr8_bounded (v : Z) :
  (0 ≤ v ≤ MAX_RRPV)%Z → (0 ≤ age incr8 v ≤ MAX_RRPV)%Z.
Proof.
  unfold age, incr8, wrap8. rewrite MAX_RRPV_eq. intros Hv.
  destruct (Z.ltb_spec v 7); [|lia]. rewrite Z.mod_small by lia. lia.
Qed.

Lemma age_plus2_bounded (v : Z) :
  (0 ≤ v ≤ MAX_RRPV)%Z → (0 ≤ age NewPolicy.plus2_sat v ≤ MAX_RRPV)%Z.
Proof.
  unfold age, NewPolicy.plus2_sat, wrap8. rewrite MAX_RRPV_eq. intros Hv.
  destruct (Z.ltb_spec v 7); [|lia].
  destruct (Z.gtb_spec (v + 2) 7); rewrite Z.mod_small by lia; lia.
Qed.

Lemma victim_of_length row : length (snd (victim_of row)) = length row.
Proof.
  unfold victim_of. destruct (first_max row); [done|].
  destruct (first_max _); simpl; by rewrite ?length_fmap.
Qed.

Lemma victim_of_bounded row :
  Forall (λ v, 0 ≤ v ≤ MAX_RRPV)%Z row →
  Forall (λ v, 0 ≤ v ≤ MAX_RRPV)%Z (snd (victim_of row)).
Proof.
  intros Hrow.
  assert (Forall (λ v, 0 ≤ v ≤ MAX_RRPV)%Z (age incr8 <$> row)) as Hrow1.
  { apply Forall_fmap. eapply Forall_impl; [done|]. apply age_incr8_bounded. }
  unfold victim_of. destruct (first_max row); [done|].
  destruct (first_max _); simpl; [done|].
  apply Forall_fmap. eapply Forall_impl; [done|]. apply age_plus2_bounded.
Qed.

(** ** Every operation preserves the state invariant *)

Lemma wrap64_range (z : Z) : (0 ≤ wrap64 z < 2 ^ 64)%Z.
Proof. unfold wrap64. apply Z.mod_pos_bound. lia. Qed.

Lemma shape3_store a c s w v : shape3 a → shape3 (alter (alter (<[w := v]>) s) c a).
Proof. intros Ha. apply shape3_alter; [done|]. intros. by rewrite length_insert. Qed.

Lemma state_ok_with_row st cpu set row :
  state_ok st → length row = LLC_WAYS → Forall (λ v, 0 ≤ v ≤ MAX_RRPV)%Z row →
  state_ok (with_row st cpu set row).
Proof.
  intros ((Hrr & Hsg & Hre & Hlen) & Hbr & Hbs & Hms & Hfl & Hst) Hl Hrow.
  split; [split; [|done]|split; [|done]].
  - by apply shape3_alter.
  - by apply all3_alter.
Qed.

Lemma all3_store (P : Z → Prop) a c s w v :
  all3 P a → P v → all3 P (alter (alter (<[w := v]>) s) c a).
Proof. intros Ha Hv. apply all3_alter; [done|]. intros. by apply Forall_insert. Qed.

Lemma init_state_ok : state_ok init_state.
Proof. apply (bool_decide_unpack _). by vm_compute. Qed.

Lemma dims_SHCT_rd1 st i :
  dims_ok st → (0 ≤ i < SHCT_SIZE)%Z → is_Some (rd1 (SHCT st) i).
Proof.
  intros (_ & _ & _ & Hlen) Hi. apply rd1_Some. rewrite Hlen.
  unfold SHCT_SIZE in *. lia.
Qed.

Lemma SHCT_bounded_rd1 st i c :
  SHCT_bounded st → rd1 (SHCT st) i = Some c → (0 ≤ c ≤ SHCT_MAX)%Z.
Proof.
  intros Hb [_ Hc]%rd1_inv. by apply (proj1 (Forall_lookup _ _) Hb _ _ Hc).
Qed.

Lemma GetVictimInSet_ok cpu set PC paddr type st w st' :
  state_ok st →
  NewPolicy.GetVictimInSet cpu set PC paddr type st = Some (w, st') →
  state_ok st'.
Proof.
  intros Hok Hrun.
  destruct (GetVictimInSet_inv _ _ _ _ _ _ _ _ Hrun) as [row Hrow].
  pose proof Hok as ((Hrr & _) & Hbr & _).
  pose proof (shape3_row3_length _ _ _ _ Hrr Hrow) as Hl.
  rewrite (GetVictimInSet_run _ _ _ _ _ _ _ Hrow Hl) in Hrun.
  injection Hrun as <- <-.
  apply state_ok_with_row; [done| |].
  - by rewrite victim_of_length.
  - apply victim_of_bounded. by eapply all3_row3.
Qed.

Ltac close_ok :=
  match goal with
  | Hst : stats_ok _ |- _ =>
      first
        [ done
        | destruct Hst as [[? ?] [? ?]]; assumption
        | match goal with H : shape3 _ |- _ => apply H end
        | by apply shape3_store
        | by rewrite length_insert
        | apply wrap64_range
        | apply all3_store; [done|];
          first [ apply insertion_rrpv_bounded | apply signature_range
                | by left | by right | rewrite MAX_RRPV_eq; lia ]
        | apply Forall_insert; [done|];
          first [ by apply learn_bounded
                | rewrite sat_inc_min by done; unfold SHCT_MAX in *; lia ] ]
  end.

Lemma Update_ok cpu set way paddr PC victim_addr type hit st st' :
  state_ok st →
  NewPolicy.UpdateReplacementState cpu set way paddr PC victim_addr type hit st
    = Some (tt, st') →
  state_ok st'.
Proof.
  intros Hok Hrun.
  destruct (Update_inv _ _ _ _ _ _ _ _ _ _ Hrun) as ([v Hv] & [s Hs] & [r Hr]).
  destruct Hok as (Hdims & Hbr & Hbs & Hms & Hfl & Hst).
  destruct (dims_SHCT_rd1 st (sig_index s) Hdims (sig_index_range s)) as [c Hc].
  pose proof (SHCT_bounded_rd1 _ _ _ Hbs Hc) as Hcb.
  destruct Hdims as (Hrr & Hsg & Hre & Hlen).
  destruct (decide (hit = 0%Z)) as [->|Hhit].
  - destruct (rd1_Some (<[Z.to_nat (sig_index s) := learn r c]> (SHCT st))
                (signature PC)) as [pred Hpred].
    { rewrite length_insert, Hlen. pose proof (signature_range PC).
      unfold SHCT_SIZE in *. lia. }
    rewrite (Update_miss_run _ _ _ _ _ _ _ _ _ _ _ _ _ Hv Hs Hr Hc Hpred) in Hrun.
    injection Hrun as <-.
    repeat apply conj; simpl; close_ok.
  - rewrite (Update_hit_run _ _ _ _ _ _ _ _ _ _ _ _ _ Hhit Hv Hs Hr Hc) in Hrun.
    injection Hrun as <-.
    repeat apply conj; simpl; close_ok.
Qed.

(** ** Initialisation *)

Lemma for_loop_inv (I : nat → State → Prop) (body : nat → M unit) :
  ∀ n i st,
    I i st →
    (∀ j st1, i ≤ j < i + n → I j st1 →
       ∃ st2, body j st1 = Some (tt, st2) ∧ I (S j) st2) →
    ∃ st', for_loop n i body st = Some (tt, st') ∧ I (i + n) st'.
Proof.
  induction n as [|n IH]; intros i st Hi Hbody.
  - exists st. rewrite Nat.add_0_r. by split.
  - destruct (Hbody i st) as (st2 & Hrun & Hi2); [lia|done|].
    destruct (IH (S i) st2 Hi2) as (st' & Hrest & Hfinal).
    { intros j st1 Hj. apply Hbody. lia. }
    exists st'. cbn [for_loop]. rewrite (bind_run _ _ _ _ _ Hrun).
    split; [done|]. by replace (i + S n) with (S i + n) by lia.
Qed.

Lemma init_cell c s w st :
  in_range c s w → cells_init c s w st →
  ∃ st',
    (rrpv_set c s w MAX_RRPV >> sig_set c s w 0 >> reused_set c s w 0) st
      = Some (tt, st') ∧
    cells_init c s (S w) st'.
Proof.
  intros Hrange (Hdims & Hh & Hm & Hcells).
  pose proof Hdims as (Hrr & Hsg & Hre & Hlen).
  destruct (shape3_rd3 _ _ _ _ Hrr Hrange) as [v Hv].
  destruct (shape3_rd3 _ _ _ _ Hsg Hrange) as [sg Hs].
  destruct (shape3_rd3 _ _ _ _ Hre Hrange) as [r Hr].
  eexists. split.
  { run_step rrpv_set_run. run_step sig_set_run. by eapply reused_set_run. }
  split; [|split; [done|split; [done|]]].
  { repeat split; simpl; try done; by apply shape3_store. }
  intros c' s' w' Hrange' Hbefore. simpl.
  destruct (decide ((c', s', w') = (c, s, w))) as [[= -> -> ->]|Hne].
  - repeat split; by eapply rd3_alter_eq.
  - rewrite !rd3_alter_ne by done. apply Hcells; [done|].
    unfold written_before in *.
    destruct (decide (c' = c)) as [->|?]; [|lia].
    destruct (decide (s' = s)) as [->|?]; [|lia].
    assert (w' ≠ w) by congruence. lia.
Qed.

Lemma init_cells st :
  cells_init 0 0 0 st →
  ∃ st',
    for_loop NUM_CORE 0 (λ c,
      for_loop LLC_SETS 0 (λ s,
        for_loop LLC_WAYS 0 (λ w,
          rrpv_set c s w MAX_RRPV >> sig_set c s w 0 >> reused_set c s w 0))) st
      = Some (tt, st') ∧
    cells_init NUM_CORE 0 0 st'.
Proof.
  intros Hinit.
  apply (for_loop_inv (λ c, cells_init c 0 0)); [done|].
  intros c st1 Hc Hst1.
  destruct (for_loop_inv (λ s, cells_init c s 0)
              (λ s, for_loop LLC_WAYS 0 (λ w,
                 rrpv_set c s w MAX_RRPV >> sig_set c s w 0 >> reused_set c s w 0))
              LLC_SETS 0 st1 Hst1) as (st2 & Hrun & Hst2).
  { intros s st3 Hs Hst3.
    destruct (for_loop_inv (λ w, cells_init c s w)
                (λ w, rrpv_set c s w MAX_RRPV >> sig_set c s w 0 >> reused_set c s w 0)
                LLC_WAYS 0 st3 Hst3) as (st4 & Hrun & Hst4).
    { intros w st5 Hw. apply init_cell. unfold in_range. lia. }
    exists st4. split; [done|].
    destruct Hst4 as (Hdims & Hh & Hm & Hcells).
    split; [done|]. split; [done|]. split; [done|].
    intros c' s' w' Hrange Hbefore. apply Hcells; [done|].
    unfold written_before, in_range in *. lia. }
  exists st2. split; [done|].
  destruct Hst2 as (Hdims & Hh & Hm & Hcells).
  split; [done|]. split; [done|]. split; [done|].
  intros c' s' w' Hrange Hbefore. apply Hcells; [done|].
  unfold written_before, in_range in *. lia.
Qed.

Lemma init_SHCT st :
  cells_init NUM_CORE 0 0 st →
  ∃ st',
    for_loop (Z.to_nat SHCT_SIZE) 0 (λ i, SHCT_set (Z.of_nat i) SHCT_INIT) st
      = Some (tt, st') ∧
    cells_init NUM_CORE 0 0 st' ∧
    ∀ j, j < Z.to_nat SHCT_SIZE → SHCT st' !! j = Some SHCT_INIT.
Proof.
  intros Hinit.
  destruct (for_loop_inv
              (λ i st1, cells_init NUM_CORE 0 0 st1 ∧
                        ∀ j, j < i → SHCT st1 !! j = Some SHCT_INIT)
              (λ i, SHCT_set (Z.of_nat i) SHCT_INIT)
              (Z.to_nat SHCT_SIZE) 0 st) as (st' & Hrun & Hcells & Htable).
  { split; [done|]. intros j Hj. lia. }
  { intros i st1 Hi ((Hdims & Hh & Hm & Hcells) & Htable).
    pose proof Hdims as (Hrr & Hsg & Hre & Hlen).
    destruct (rd1_Some (SHCT st1) (Z.of_nat i)) as [c Hc]; [rewrite Hlen; lia|].
    eexists. split; [by eapply SHCT_set_run|].
    rewrite Nat2Z.id. split.
    - split; [|done]. repeat split; simpl; try done; try apply Hrr;
        try apply Hsg; try apply Hre. by rewrite length_insert.
    - intros j Hj. simpl. destruct (decide (j = i)) as [->|Hne].
      + apply list_lookup_insert_eq. rewrite Hlen. lia.
      + rewrite list_lookup_insert_ne by done. apply Htable. lia. }
  exists st'. split; [done|]. split; [done|]. intros j Hj. by apply Htable.
Qed.

Lemma filled_array a x :
  shape3 a → (∀ c s w, in_range c s w → rd3 a c s w = Some x) →
  a = replicate NUM_CORE (replicate LLC_SETS (replicate LLC_WAYS x)).
Proof.
  intros [Hlen Hall] Hcells. symmetry.
  apply replicate_as_Forall_2; [done|]. apply Forall_lookup_2.
  intros c plane Hplane. pose proof (lookup_lt_Some _ _ _ Hplane) as Hc.
  destruct (Forall_lookup_1 _ _ _ _ Hall Hplane) as [Hlp Hrows].
  apply replicate_as_Forall_2; [done|]. apply Forall_lookup_2.
  intros s row Hrow. pose proof (lookup_lt_Some _ _ _ Hrow) as Hs.
  pose proof (Forall_lookup_1 _ _ _ _ Hrows Hrow) as Hlr. simpl in Hlr.
  apply replicate_as_Forall_2; [done|]. apply Forall_lookup_2.
  intros w y Hy. pose proof (lookup_lt_Some _ _ _ Hy) as Hw.
  assert (in_range c s w) as Hrange by (unfold in_range; lia).
  specialize (Hcells c s w Hrange). unfold rd3 in Hcells.
  rewrite Hplane, Hrow, Hy in Hcells. congruence.
Qed.

(** From arrays of the declared extents, [InitReplacementState] returns
    and leaves [init_state], whatever the arrays held. *)
Lemma InitReplacementState_run st0 :
  dims_ok st0 → InitReplacementState st0 = Some (tt, init_state).
Proof.
  intros Hdims. unfold InitReplacementState.
  unfold stat_hits_set at 1. rewrite (bind_run _ _ _ tt _ eq_refl).
  unfold stat_misses_set at 1. rewrite (bind_run _ _ _ tt _ eq_refl).
  cbn [repl_rrpv repl_sig repl_reused SHCT stat_hits stat_misses].
  match goal with
  | |- bind _ _ ?st = _ =>
      destruct (init_cells st) as (st1 & Hrun1 & Hst1)
  end.
  { split; [apply Hdims|]. split; [done|]. split; [done|].
    intros c' s' w' _ Hbefore. unfold written_before in Hbefore. lia. }
  rewrite (bind_run _ _ _ _ _ Hrun1).
  destruct (init_SHCT st1 Hst1)
    as (st2 & Hrun2 & ((Hrr & Hsg & Hre & Hlen) & Hh & Hm & Hcells) & Htable).
  rewrite Hrun2. do 2 f_equal.
  assert (∀ c s w, in_range c s w → written_before NUM_CORE 0 0 c s w) as Hall.
  { intros c s w (Hc & _). by left. }
  destruct st2 as [rrpv sig reused table hits misses].
  cbn [repl_rrpv repl_sig repl_reused SHCT stat_hits stat_misses] in *.
  assert (rrpv = replicate NUM_CORE (replicate LLC_SETS (replicate LLC_WAYS MAX_RRPV)))
    as ->.
  { apply filled_array; [exact Hrr|]. intros c s w Hrange.
    apply (Hcells c s w Hrange), Hall, Hrange. }
  assert (sig = replicate NUM_CORE (replicate LLC_SETS (replicate LLC_WAYS 0%Z)))
    as ->.
  { apply filled_array; [exact Hsg|]. intros c s w Hrange.
    apply (Hcells c s w Hrange), Hall, Hrange. }
  assert (reused = replicate NUM_CORE (replicate LLC_SETS (replicate LLC_WAYS 0%Z)))
    as ->.
  { apply filled_array; [exact Hre|]. intros c s w Hrange.
    apply (Hcells c s w Hrange), Hall, Hrange. }
  assert (table = replicate (Z.to_nat SHCT_SIZE) SHCT_INIT) as ->.
  { symmetry. apply replicate_as_Forall_2; [exact Hlen|]. apply Forall_lookup_2.
    intros j y Hy. pose proof (lookup_lt_Some _ _ _ Hy) as Hj.
    rewrite Hlen in Hj. rewrite (Htable j Hj) in Hy. congruence. }
  rewrite Hh, Hm. reflexivity.
Qed.

Lemma reachable_ok st : Reach.reachable st → state_ok st.
Proof.
  induction 1 as [st0 st Hdims Hinit|st cpu set PC paddr type w st' _ IH Hrun
                 |st cpu set way paddr PC victim_addr type hit st' _ IH Hrun].
  - rewrite (InitReplacementState_run _ Hdims) in Hinit.
    injection Hinit as <-. apply init_state_ok.
  - by eapply GetVictimInSet_ok.
  - by eapply Update_ok.
Qed.

(** ** The first line at [MAX_RRPV] *)

Lemma first_max_Some row w :
  first_max row = Some w →
  row !! w = Some MAX_RRPV ∧ ∀ j, j < w → row !! j ≠ Some MAX_RRPV.
Proof.
  unfold first_max. destruct (list_find _ row) as [[i x]|] eqn:Hfind; [|done].
  intros [= <-]. apply list_find_Some in Hfind as (Hi & -> & Hlow).
  split; [done|]. intros j Hj Hrow. by apply (Hlow j MAX_RRPV).
Qed.

Lemma first_max_None row :
  first_max row = None → ∀ j, row !! j ≠ Some MAX_RRPV.
Proof.
  unfold first_max. destruct (list_find _ row) as [[i x]|] eqn:Hfind; [done|].
  intros _ j Hj. apply list_find_None in Hfind.
  by apply (proj1 (Forall_lookup _ _) Hfind _ _ Hj).
Qed.

Lemma rd3_with_row st cpu set row row' w :
  row3 (repl_rrpv st) cpu set = Some row →
  rd3 (repl_rrpv (with_row st cpu set row')) cpu set w = row' !! w.
Proof.
  intros Hrow. apply row3_rd3. by eapply row3_with_row.
Qed.

Lemma fallback_taken_true row :
  fallback_taken row = true ↔
  first_max row = None ∧ first_max (age incr8 <$> row) = None.
Proof. unfold fallback_taken. apply bool_decide_eq_true. Qed.

(** ** Reachability of the scenario states *)

Lemma install_ways_reachable cpu set :
  ∀ n w st st',
    Reach.reachable st → install_ways cpu set n w st = Some (tt, st') →
    Reach.reachable st'.
Proof.
  induction n as [|n IH]; intros w st st' Hst Hrun.
  - by injection Hrun as <-.
  - simpl in Hrun. apply bind_inv in Hrun as ([] & st1 & Hupd & Hrest).
    eapply IH; [|done]. by eapply Reach.reach_update.
Qed.

Lemma init_state_reachable : Reach.reachable init_state.
Proof.
  apply (Reach.reach_init init_state); [apply init_state_ok|].
  apply InitReplacementState_run, init_state_ok.
Qed.

Lemma filled_state_reachable : Reach.reachable filled_state.
Proof.
  destruct (install_ways 0 0 LLC_WAYS 0 init_state) as [[[] st]|] eqn:Hrun.
  - replace filled_state with st by (unfold filled_state, exec; by rewrite Hrun).
    eapply install_ways_reachable; [apply init_state_reachable|done].
  - by vm_compute in Hrun.
Qed.

Lemma refilled_state_reachable : Reach.reachable refilled_state.
Proof.
  destruct (NewPolicy.GetVictimInSet 0 0 0 0 0 filled_state)
    as [[w st1]|] eqn:Hvictim; [|by vm_compute in Hvictim].
  destruct (NewPolicy.UpdateReplacementState 0 0 w 0 1600 0 0 0 st1)
    as [[[] st2]|] eqn:Hupd.
  - replace refilled_state with st2.
    + eapply Reach.reach_update; [|done].
      eapply Reach.reach_victim; [apply filled_state_reachable|done].
    + unfold refilled_state, exec, bind. by rewrite Hvictim, Hupd.
  - assert (w = 0 ∧ st1 = exec (NewPolicy.GetVictimInSet 0 0 0 0 0) filled_state)
      as [-> ->].
    { unfold exec. rewrite Hvictim. split; [|done].
      assert (fst <$> NewPolicy.GetVictimInSet 0 0 0 0 0 filled_state = Some w)
        as Hw by (by rewrite Hvictim).
      vm_compute in Hw. by injection Hw. }
    by vm_compute in Hupd.
Qed.

(** The fallback condition, in terms of the two scans the selector runs. *)
Lemma fallback_taken_scans st cpu set row :
  row3 (repl_rrpv st) cpu set = Some row → length row = LLC_WAYS →
  fallback_taken row = true ↔
  ∃ st1,
    scan_ways cpu set LLC_WAYS 0 st = Some (None, st) ∧
    age_ways incr8 cpu set LLC_WAYS 0 st = Some (tt, st1) ∧
    scan_ways cpu set LLC_WAYS 0 st1 = Some (None, st1).
Proof.
  intros Hrow Hlen.
  set (row1 := age incr8 <$> row).
  assert (length row1 = LLC_WAYS) as Hlen1 by (unfold row1; by rewrite length_fmap).
  pose proof (row3_with_row _ _ _ _ row1 Hrow) as Hrow1.
  rewrite fallback_taken_true. fold row1.
  rewrite (scan_ways_all _ _ _ _ Hrow Hlen), (age_ways_all _ _ _ _ _ Hrow Hlen).
  fold row1. split.
  - intros [Hfirst Hsecond]. exists (with_row st cpu set row1).
    rewrite (scan_ways_all _ _ _ _ Hrow1 Hlen1), Hfirst, Hsecond. done.
  - intros (st1 & [= Hfirst] & [= <-] & Hscan).
    rewrite (scan_ways_all _ _ _ _ Hrow1 Hlen1) in Hscan.
    by injection Hscan as Hsecond.
Qed.

(** * The victim selector *)

(** X18.  In every reachable state and for every in-range (core, set),
    [GetVictimInSet] returns a way index below [LLC_WAYS].  When one of the
    two scans of the selector (on the set as found, and after the +1 aging
    pass) finds a line at [MAX_RRPV], the line it returns has
    [rrpv = MAX_RRPV] in the state the selector leaves; when neither does,
    the result is way 0, whatever the +2 pass produced. *)
Theorem victim_validity st cpu set PC paddr type :
  Reach.reachable st → cpu < NUM_CORE → set < LLC_SETS →
  ∃ row w st',
    row3 (repl_rrpv st) cpu set = Some row ∧
    NewPolicy.GetVictimInSet cpu set PC paddr type st = Some (w, st') ∧
    w < LLC_WAYS ∧
    (if fallback_taken row then w = 0
     else rd3 (repl_rrpv st') cpu set w = Some MAX_RRPV) ∧
    (fallback_taken row = true ↔
     ∃ st1,
       scan_ways cpu set LLC_WAYS 0 st = Some (None, st) ∧
       age_ways incr8 cpu set LLC_WAYS 0 st = Some (tt, st1) ∧
       scan_ways cpu set LLC_WAYS 0 st1 = Some (None, st1)).
Proof.
  intros Hreach Hcpu Hset.
  destruct (reachable_ok _ Hreach) as ((Hshape & _) & _).
  destruct (shape3_row3 _ _ _ Hshape Hcpu Hset) as (row & Hrow & Hlen).
  exists row, (fst (victim_of row)), (with_row st cpu set (snd (victim_of row))).
  split; [done|]. split; [by apply GetVictimInSet_run|].
  match goal with
  | |- ?A ∧ ?B ∧ _ =>
      cut (A ∧ B);
      [intros [? ?]; split; [done|split; [done|by apply fallback_taken_scans]]|]
  end.
  rewrite (rd3_with_row _ _ _ _ _ _ Hrow).
  unfold victim_of.
  destruct (first_max row) as [w|] eqn:Hfirst.
  { destruct (fallback_taken row) eqn:Hfb;
      [apply fallback_taken_true in Hfb as [? ?]; congruence|].
    apply first_max_Some in Hfirst as [Hw _]. simpl.
    split; [|done]. apply lookup_lt_Some in Hw. lia. }
  destruct (first_max (age incr8 <$> row)) as [w|] eqn:Hsecond.
  { destruct (fallback_taken row) eqn:Hfb;
      [apply fallback_taken_true in Hfb as [? ?]; congruence|].
    apply first_max_Some in Hsecond as [Hw _]. simpl.
    split; [|done]. apply lookup_lt_Some in Hw.
    rewrite length_fmap in Hw. lia. }
  rewrite (proj2 (fallback_taken_true row)) by done.
  simpl. split; [unfold LLC_WAYS; lia|done].
Qed.

Lemma aged_state_reachable : Reach.reachable aged_state.
Proof.
  destruct (NewPolicy.UpdateReplacementState 0 0 2 0 48 0 0 0 filled_state)
    as [[[] st1]|] eqn:Hupd; [|by vm_compute in Hupd].
  replace aged_state with st1 by (unfold aged_state, exec; by rewrite Hupd).
  eapply Reach.reach_update; [apply filled_state_reachable|done].
Qed.

Lemma victim_validity_witness :
  ∃ row w st',
    row3 (repl_rrpv aged_state) 0 0 = Some row ∧
    NewPolicy.GetVictimInSet 0 0 0 0 0 aged_state = Some (w, st') ∧
    w < LLC_WAYS ∧
    (if fallback_taken row then w = 0
     else rd3 (repl_rrpv st') 0 0 w = Some MAX_RRPV) ∧
    (fallback_taken row = true ↔
     ∃ st1,
       scan_ways 0 0 LLC_WAYS 0 aged_state = Some (None, aged_state) ∧
       age_ways incr8 0 0 LLC_WAYS 0 aged_state = Some (tt, st1) ∧
       scan_ways 0 0 LLC_WAYS 0 st1 = Some (None, st1)).
Proof.
  apply (victim_validity aged_state 0 0 0 0 0).
  - apply aged_state_reachable.
  - unfold NUM_CORE. lia.
  - unfold LLC_SETS, NUM_CORE. lia.
Defined.

(** C8 (silent fallback).  On a well-shaped state and in-range (core, set)
    the selector always returns a way, never a failure.  When the two scans
    it performs (on the set as found, and after the +1 aging pass) both see
    no line at [MAX_RRPV], it applies the +2 aging pass and returns way 0. *)
Theorem fallback_way_zero st cpu set PC paddr type :
  dims_ok st → cpu < NUM_CORE → set < LLC_SETS →
  ∃ w st',
    NewPolicy.GetVictimInSet cpu set PC paddr type st = Some (w, st') ∧
    ∀ st1,
      scan_ways cpu set LLC_WAYS 0 st = Some (None, st) →
      age_ways incr8 cpu set LLC_WAYS 0 st = Some (tt, st1) →
      scan_ways cpu set LLC_WAYS 0 st1 = Some (None, st1) →
      w = 0 ∧
      age_ways NewPolicy.plus2_sat cpu set LLC_WAYS 0 st1 = Some (tt, st').
Proof.
  intros (Hshape & _) Hcpu Hset.
  destruct (shape3_row3 _ _ _ Hshape Hcpu Hset) as (row & Hrow & Hlen).
  exists (fst (victim_of row)), (with_row st cpu set (snd (victim_of row))).
  split; [by apply GetVictimInSet_run|].
  intros st1 Hscan1 Hage Hscan2.
  rewrite (scan_ways_all _ _ _ _ Hrow Hlen) in Hscan1.
  injection Hscan1 as Hfirst.
  rewrite (age_ways_all _ _ _ _ _ Hrow Hlen) in Hage. injection Hage as <-.
  set (row1 := age incr8 <$> row) in *.
  assert (length row1 = LLC_WAYS) as Hlen1 by (unfold row1; by rewrite length_fmap).
  pose proof (row3_with_row _ _ _ _ row1 Hrow) as Hrow1.
  rewrite (scan_ways_all _ _ _ _ Hrow1 Hlen1) in Hscan2.
  injection Hscan2 as Hsecond.
  unfold victim_of. fold row1. rewrite Hfirst, Hsecond. cbn [fst snd].
  split; [done|].
  rewrite (age_ways_all _ _ _ _ _ Hrow1 Hlen1). by rewrite with_row_with_row.
Qed.

Lemma fallback_way_zero_witness :
  ∃ w st',
    NewPolicy.GetVictimInSet 0 0 0 0 0 filled_state = Some (w, st') ∧
    ∀ st1,
      scan_ways 0 0 LLC_WAYS 0 filled_state = Some (None, filled_state) →
      age_ways incr8 0 0 LLC_WAYS 0 filled_state = Some (tt, st1) →
      scan_ways 0 0 LLC_WAYS 0 st1 = Some (None, st1) →
      w = 0 ∧
      age_ways NewPolicy.plus2_sat 0 0 LLC_WAYS 0 st1 = Some (tt, st').
Proof.
  apply (fallback_way_zero filled_state 0 0 0 0 0).
  - apply (bool_decide_unpack _). vm_compute. exact I.
  - unfold NUM_CORE. lia.
  - unfold LLC_SETS, NUM_CORE. lia.
Defined.

(** C7 (frame of the selector).  A victim selection changes nothing but the
    [rrpv] values of the lines of the targeted (core, set): signatures,
    reuse flags, the SHCT, both statistics counters and the [rrpv] rows of
    every other (core, set) are as before. *)
Theorem victim_frame st cpu set PC paddr type :
  dims_ok st → cpu < NUM_CORE → set < LLC_SETS →
  ∃ w st',
    NewPolicy.GetVictimInSet cpu set PC paddr type st = Some (w, st') ∧
    repl_sig st' = repl_sig st ∧
    repl_reused st' = repl_reused st ∧
    SHCT st' = SHCT st ∧
    stat_hits st' = stat_hits st ∧
    stat_misses st' = stat_misses st ∧
    ∀ cpu' set', (cpu', set') ≠ (cpu, set) →
      row3 (repl_rrpv st') cpu' set' = row3 (repl_rrpv st) cpu' set'.
Proof.
  intros (Hshape & _) Hcpu Hset.
  destruct (shape3_row3 _ _ _ Hshape Hcpu Hset) as (row & Hrow & Hlen).
  exists (fst (victim_of row)), (with_row st cpu set (snd (victim_of row))).
  split; [by apply GetVictimInSet_run|].
  repeat split. intros cpu' set' Hne. simpl. by apply row3_alter_ne.
Qed.

Lemma victim_frame_witness :
  ∃ w st',
    NewPolicy.GetVictimInSet 0 7 0 0 0 filled_state = Some (w, st') ∧
    repl_sig st' = repl_sig filled_state ∧
    repl_reused st' = repl_reused filled_state ∧
    SHCT st' = SHCT filled_state ∧
    stat_hits st' = stat_hits filled_state ∧
    stat_misses st' = stat_misses filled_state ∧
    ∀ cpu' set', (cpu', set') ≠ (0, 7) →
      row3 (repl_rrpv st') cpu' set' = row3 (repl_rrpv filled_state) cpu' set'.
Proof.
  apply (victim_frame filled_state 0 7 0 0 0).
  - apply (bool_decide_unpack _). vm_compute. exact I.
  - unfold NUM_CORE. lia.
  - unfold LLC_SETS, NUM_CORE. lia.
Defined.

(** C1 (the +2 pass is not followed by a scan).  The claim is that, after
    the +2 aging pass, the selector returns the lowest-index way at
    [MAX_RRPV].  The code evaluated on a reachable state: in
    [refilled_state] the row of set 0 is [1; 4; ...; 4]; both scans fail,
    the +2 pass leaves [4; 7; ...; 7], whose lowest-index line at
    [MAX_RRPV] is way 1, and the selector returns way 0, a line at
    [rrpv = 4]. *)
Theorem second_aging_pass_not_rescanned :
  Reach.reachable refilled_state ∧
  row3 (repl_rrpv refilled_state) 0 0
    = Some [1; 4; 4; 4; 4; 4; 4; 4; 4; 4; 4; 4; 4; 4; 4; 4]%Z ∧
  NewPolicy.GetVictimInSet 0 0 0 0 0 refilled_state
    = Some (0, exec (NewPolicy.GetVictimInSet 0 0 0 0 0) refilled_state) ∧
  row3 (repl_rrpv (exec (NewPolicy.GetVictimInSet 0 0 0 0 0) refilled_state)) 0 0
    = Some [4; 7; 7; 7; 7; 7; 7; 7; 7; 7; 7; 7; 7; 7; 7; 7]%Z ∧
  first_max [4; 7; 7; 7; 7; 7; 7; 7; 7; 7; 7; 7; 7; 7; 7; 7]%Z = Some 1 ∧
  rd3 (repl_rrpv (exec (NewPolicy.GetVictimInSet 0 0 0 0 0) refilled_state)) 0 0 0
    = Some 4%Z.
Proof.
  split; [apply refilled_state_reachable|].
  split; [vm_compute; reflexivity|].
  split; [vm_compute; reflexivity|].
  split; [vm_compute; reflexivity|].
  split; vm_compute; reflexivity.
Qed.

(** The same on the state of the specification's end-to-end scenario: with
    all sixteen lines at [rrpv = 1] the selector ages them to 4 and returns
    way 0, although no line has reached [MAX_RRPV]. *)
Example scenario_victim_not_at_max :
  row3 (repl_rrpv filled_state) 0 0
    = Some [1; 1; 1; 1; 1; 1; 1; 1; 1; 1; 1; 1; 1; 1; 1; 1]%Z ∧
  NewPolicy.GetVictimInSet 0 0 0 0 0 filled_state
    = Some (0, exec (NewPolicy.GetVictimInSet 0 0 0 0 0) filled_state) ∧
  row3 (repl_rrpv (exec (NewPolicy.GetVictimInSet 0 0 0 0 0) filled_state)) 0 0
    = Some [4; 4; 4; 4; 4; 4; 4; 4; 4; 4; 4; 4; 4; 4; 4; 4]%Z.
Proof.
  split; [vm_compute; reflexivity|].
  split; vm_compute; reflexivity.
Qed.

(** C2 (victim validity).  The claim is that the returned line is at
    [MAX_RRPV] unless even the two aging passes produce no such line.  The
    code evaluated on the reachable [refilled_state]: the index returned,
    way 0, is below [LLC_WAYS]; the two aging passes did produce lines at
    [MAX_RRPV] (every way from 1 to 15 is at [MAX_RRPV] in the state the
    selector leaves); and the line returned is at [rrpv = 4].  The aged row
    is never scanned again, the defect that [second_aging_pass_not_rescanned]
    shows. *)
Theorem fallback_victim_below_max :
  let st' := exec (NewPolicy.GetVictimInSet 0 0 0 0 0) refilled_state in
  Reach.reachable refilled_state ∧
  NewPolicy.GetVictimInSet 0 0 0 0 0 refilled_state = Some (0, st') ∧
  0 < LLC_WAYS ∧
  rd3 (repl_rrpv st') 0 0 0 = Some 4%Z ∧
  4%Z ≠ MAX_RRPV ∧
  ∀ way, 1 ≤ way < LLC_WAYS → rd3 (repl_rrpv st') 0 0 way = Some MAX_RRPV.
Proof.
  intros st'.
  assert (row3 (repl_rrpv st') 0 0
          = Some [4; 7; 7; 7; 7; 7; 7; 7; 7; 7; 7; 7; 7; 7; 7; 7]%Z) as Hrow
    by (vm_compute; reflexivity).
  split; [apply refilled_state_reachable|].
  split; [vm_compute; reflexivity|].
  split; [unfold LLC_WAYS; lia|].
  split; [by rewrite (row3_rd3 _ _ _ _ _ Hrow)|].
  split; [by rewrite MAX_RRPV_eq|].
  intros way Hway. rewrite (row3_rd3 _ _ _ _ _ Hrow).
  unfold LLC_WAYS in Hway.
  destruct way as [|way]; [lia|].
  do 15 (destruct way as [|way]; [reflexivity|]).
  lia.
Qed.

(** * The updater *)

(** C3 (miss: new signature and insertion tier).  A miss update on an
    in-range way stores the signature [(PC >> 4) & (SHCT_SIZE - 1)] on the
    line, clears its reuse flag, and sets its [rrpv] from the counter [pred]
    that the SHCT holds for that signature when the insertion reads it
    (after the learning step): 0 for [pred >= THRESHOLD + 2], 1 for
    [THRESHOLD <= pred < THRESHOLD + 2], [MAX_RRPV - 1] for
    [0 < pred < THRESHOLD], [MAX_RRPV] for [pred = 0]. *)
Theorem miss_insertion st cpu set way paddr PC victim_addr type :
  dims_ok st → in_range cpu set way →
  ∃ st' pred rrpv,
    NewPolicy.UpdateReplacementState cpu set way paddr PC victim_addr type 0 st
      = Some (tt, st') ∧
    rd3 (repl_sig st') cpu set way
      = Some (Z.land (Z.shiftr PC 4) (SHCT_SIZE - 1)) ∧
    rd3 (repl_reused st') cpu set way = Some 0%Z ∧
    rd1 (SHCT st') (Z.land (Z.shiftr PC 4) (SHCT_SIZE - 1)) = Some pred ∧
    rd3 (repl_rrpv st') cpu set way = Some rrpv ∧
    ((THRESHOLD + 2 ≤ pred)%Z → rrpv = 0%Z) ∧
    ((THRESHOLD ≤ pred < THRESHOLD + 2)%Z → rrpv = 1%Z) ∧
    ((0 < pred < THRESHOLD)%Z → rrpv = (MAX_RRPV - 1)%Z) ∧
    (pred = 0%Z → rrpv = MAX_RRPV) ∧
    THRESHOLD = 4%Z ∧ MAX_RRPV = 7%Z.
Proof.
  intros Hdims Hrange.
  pose proof Hdims as (Hrr & Hsg & Hre & Hlen).
  destruct (shape3_rd3 _ _ _ _ Hrr Hrange) as [v Hv].
  destruct (shape3_rd3 _ _ _ _ Hsg Hrange) as [s Hs].
  destruct (shape3_rd3 _ _ _ _ Hre Hrange) as [r Hr].
  destruct (dims_SHCT_rd1 st (sig_index s) Hdims (sig_index_range s)) as [c Hc].
  destruct (rd1_Some (<[Z.to_nat (sig_index s) := learn r c]> (SHCT st))
              (signature PC)) as [pred Hpred].
  { rewrite length_insert, Hlen. pose proof (signature_range PC).
    unfold SHCT_SIZE in *. lia. }
  eexists _, pred, (insertion_rrpv pred).
  split; [by eapply Update_miss_run|].
  cbn [repl_rrpv repl_sig repl_reused SHCT].
  change (Z.shiftr PC 4) with (Z.shiftr PC SIGN_SHIFT). rewrite <- signature_spec.
  split; [by eapply rd3_alter_eq|].
  split; [by eapply rd3_alter_eq|].
  split; [done|].
  split; [by eapply rd3_alter_eq|].
  unfold insertion_rrpv, THRESHOLD, SHCT_INIT, wrap8. rewrite MAX_RRPV_eq.
  change ((4 + 2) mod 2 ^ 8)%Z with 6%Z. change (4 mod 2 ^ 8)%Z with 4%Z.
  repeat split; intros Hp;
    destruct (Z.geb_spec pred 6), (Z.geb_spec pred 4), (Z.gtb_spec pred 0);
    simpl; lia.
Qed.

Lemma miss_insertion_witness :
  ∃ st' pred rrpv,
    NewPolicy.UpdateReplacementState 0 0 3 0 1600 0 0 0 filled_state
      = Some (tt, st') ∧
    rd3 (repl_sig st') 0 0 3 = Some (Z.land (Z.shiftr 1600 4) (SHCT_SIZE - 1)) ∧
    rd3 (repl_reused st') 0 0 3 = Some 0%Z ∧
    rd1 (SHCT st') (Z.land (Z.shiftr 1600 4) (SHCT_SIZE - 1)) = Some pred ∧
    rd3 (repl_rrpv st') 0 0 3 = Some rrpv ∧
    ((THRESHOLD + 2 ≤ pred)%Z → rrpv = 0%Z) ∧
    ((THRESHOLD ≤ pred < THRESHOLD + 2)%Z → rrpv = 1%Z) ∧
    ((0 < pred < THRESHOLD)%Z → rrpv = (MAX_RRPV - 1)%Z) ∧
    (pred = 0%Z → rrpv = MAX_RRPV) ∧
    THRESHOLD = 4%Z ∧ MAX_RRPV = 7%Z.
Proof.
  apply (miss_insertion filled_state 0 0 3 0 1600 0 0).
  - apply (bool_decide_unpack _). vm_compute. exact I.
  - unfold in_range, LLC_SETS, NUM_CORE, LLC_WAYS. lia.
Defined.

(** What a miss update does to the SHCT and to the other lines. *)
Lemma miss_effect st cpu set way paddr PC victim_addr type :
  state_ok st → in_range cpu set way →
  ∃ st' s r c,
    rd3 (repl_sig st) cpu set way = Some s ∧
    rd3 (repl_reused st) cpu set way = Some r ∧
    rd1 (SHCT st) s = Some c ∧
    NewPolicy.UpdateReplacementState cpu set way paddr PC victim_addr type 0 st
      = Some (tt, st') ∧
    state_ok st' ∧
    rd1 (SHCT st') s = Some (learn r c) ∧
    (∀ i, i ≠ s → rd1 (SHCT st') i = rd1 (SHCT st) i) ∧
    (∀ cpu' set' way', (cpu', set', way') ≠ (cpu, set, way) →
       rd3 (repl_sig st') cpu' set' way' = rd3 (repl_sig st) cpu' set' way' ∧
       rd3 (repl_reused st') cpu' set' way' = rd3 (repl_reused st) cpu' set' way').
Proof.
  intros Hok Hrange.
  pose proof Hok as (Hdims & _ & _ & Hms & _).
  pose proof Hdims as (Hrr & Hsg & Hre & Hlen).
  destruct (shape3_rd3 _ _ _ _ Hrr Hrange) as [v Hv].
  destruct (shape3_rd3 _ _ _ _ Hsg Hrange) as [s Hs].
  destruct (shape3_rd3 _ _ _ _ Hre Hrange) as [r Hr].
  pose proof (all3_rd3 _ _ _ _ _ _ Hms Hs) as Hsb. simpl in Hsb.
  pose proof (sig_index_id s Hsb) as Hid.
  destruct (dims_SHCT_rd1 st s Hdims Hsb) as [c Hc].
  destruct (rd1_Some (<[Z.to_nat s := learn r c]> (SHCT st))
              (signature PC)) as [pred Hpred].
  { rewrite length_insert, Hlen. pose proof (signature_range PC).
    unfold SHCT_SIZE in *. lia. }
  assert (NewPolicy.UpdateReplacementState cpu set way paddr PC victim_addr type 0 st
          = Some (tt, mkState
                (alter (alter (<[way := insertion_rrpv pred]>) set) cpu (repl_rrpv st))
                (alter (alter (<[way := signature PC]>) set) cpu (repl_sig st))
                (alter (alter (<[way := 0%Z]>) set) cpu (repl_reused st))
                (<[Z.to_nat s := learn r c]> (SHCT st))
                (stat_hits st) (wrap64 (stat_misses st + 1)))) as Hrun.
  { rewrite <- Hid.
    eapply Update_miss_run; rewrite ?Hid; done. }
  eexists _, s, r, c. split; [done|]. split; [done|]. split; [done|].
  split; [exact Hrun|]. split; [by eapply Update_ok|].
  cbn [repl_rrpv repl_sig repl_reused SHCT].
  split; [by eapply rd1_insert_eq|].
  split.
  - intros i Hi. apply rd1_insert_ne; [lia|done].
  - intros cpu' set' way' Hne. by rewrite !rd3_alter_ne.
Qed.

(** What a hit update does. *)
Lemma hit_effect st cpu set way paddr PC victim_addr type hit :
  state_ok st → in_range cpu set way → hit ≠ 0%Z →
  ∃ s c v r,
    rd3 (repl_sig st) cpu set way = Some s ∧
    rd1 (SHCT st) s = Some c ∧
    NewPolicy.UpdateReplacementState cpu set way paddr PC victim_addr type hit st
      = Some (tt, mkState
                (alter (alter (<[way := 0%Z]>) set) cpu (repl_rrpv st))
                (repl_sig st)
                (alter (alter (<[way := 1%Z]>) set) cpu (repl_reused st))
                (<[Z.to_nat s := Z.min (c + 1) SHCT_MAX]> (SHCT st))
                (wrap64 (stat_hits st + 1)) (stat_misses st)) ∧
    rd3 (repl_rrpv st) cpu set way = Some v ∧
    rd3 (repl_reused st) cpu set way = Some r ∧
    (0 ≤ s)%Z.
Proof.
  intros Hok Hrange Hhit.
  pose proof Hok as (Hdims & _ & Hbs & Hms & _).
  pose proof Hdims as (Hrr & Hsg & Hre & Hlen).
  destruct (shape3_rd3 _ _ _ _ Hrr Hrange) as [v Hv].
  destruct (shape3_rd3 _ _ _ _ Hsg Hrange) as [s Hs].
  destruct (shape3_rd3 _ _ _ _ Hre Hrange) as [r Hr].
  pose proof (all3_rd3 _ _ _ _ _ _ Hms Hs) as Hsb. simpl in Hsb.
  pose proof (sig_index_id s Hsb) as Hid.
  destruct (dims_SHCT_rd1 st s Hdims Hsb) as [c Hc].
  exists s, c, v, r. split; [done|]. split; [done|].
  split; [|split; [done|split; [done|lia]]].
  rewrite <- (sat_inc_min c) by (by eapply SHCT_bounded_rd1).
  rewrite <- Hid.
  eapply Update_hit_run; rewrite ?Hid; done.
Qed.

(** C5 (hit update).  A hit on an in-range way increments [stat_hits] (as
    a [uint64_t], without wrap-around below [2^64 - 1]), sets the line's
    reuse flag to 1 and its [rrpv] to 0, and increments the SHCT counter of
    the signature stored on the line, saturating at [SHCT_MAX = 7].  All
    signatures, the [rrpv] and reuse flag of every other line, every other
    SHCT counter and [stat_misses] are unchanged. *)
Theorem hit_update st cpu set way paddr PC victim_addr type hit :
  state_ok st → in_range cpu set way → hit ≠ 0%Z →
  ∃ st' s c,
    rd3 (repl_sig st) cpu set way = Some s ∧
    rd1 (SHCT st) s = Some c ∧
    NewPolicy.UpdateReplacementState cpu set way paddr PC victim_addr type hit st
      = Some (tt, st') ∧
    stat_hits st' = wrap64 (stat_hits st + 1) ∧
    ((stat_hits st + 1 < 2 ^ 64)%Z → stat_hits st' = (stat_hits st + 1)%Z) ∧
    rd3 (repl_reused st') cpu set way = Some 1%Z ∧
    rd3 (repl_rrpv st') cpu set way = Some 0%Z ∧
    rd1 (SHCT st') s = Some (Z.min (c + 1) SHCT_MAX) ∧
    SHCT_MAX = 7%Z ∧
    repl_sig st' = repl_sig st ∧
    (∀ cpu' set' way', (cpu', set', way') ≠ (cpu, set, way) →
       rd3 (repl_rrpv st') cpu' set' way' = rd3 (repl_rrpv st) cpu' set' way' ∧
       rd3 (repl_reused st') cpu' set' way' = rd3 (repl_reused st) cpu' set' way') ∧
    (∀ i, i ≠ s → rd1 (SHCT st') i = rd1 (SHCT st) i) ∧
    stat_misses st' = stat_misses st.
Proof.
  intros Hok Hrange Hhit.
  destruct (hit_effect st cpu set way paddr PC victim_addr type hit Hok Hrange Hhit)
    as (s & c & v & r & Hs & Hc & Hrun & Hv & Hr & Hs0).
  eexists _, s, c. split; [done|]. split; [done|]. split; [exact Hrun|].
  cbn [repl_rrpv repl_sig repl_reused SHCT stat_hits stat_misses].
  split; [done|].
  split.
  { intros Hlt. apply Z.mod_small.
    destruct Hok as (_ & _ & _ & _ & _ & [Hh _] & _). lia. }
  split; [by eapply rd3_alter_eq|].
  split; [by eapply rd3_alter_eq|].
  split; [by eapply rd1_insert_eq|].
  split; [done|]. split; [done|].
  split; [intros cpu' set' way' Hne; by rewrite !rd3_alter_ne|].
  split; [|done].
  intros i Hi. by apply rd1_insert_ne.
Qed.

(** The hit of the end-to-end scenario: after the sixteen installations a
    hit on way 0 (signature 1) gives [stat_hits = 1], [rrpv[0] = 0] and
    moves [SHCT[1]] from 4 to 5. *)
Example scenario_hit :
  let st' :=
    exec (NewPolicy.UpdateReplacementState 0 0 0 0 16 0 0 1) filled_state in
  rd1 (SHCT filled_state) 1 = Some 4%Z ∧
  stat_hits st' = 1%Z ∧ stat_misses st' = 16%Z ∧
  rd3 (repl_rrpv st') 0 0 0 = Some 0%Z ∧
  rd3 (repl_reused st') 0 0 0 = Some 1%Z ∧
  rd1 (SHCT st') 1 = Some 5%Z.
Proof.
  split; [vm_compute; reflexivity|].
  split; [vm_compute; reflexivity|].
  split; [vm_compute; reflexivity|].
  split; [vm_compute; reflexivity|].
  split; vm_compute; reflexivity.
Qed.

Lemma hit_update_witness :
  ∃ st' s c,
    rd3 (repl_sig filled_state) 0 0 5 = Some s ∧
    rd1 (SHCT filled_state) s = Some c ∧
    NewPolicy.UpdateReplacementState 0 0 5 0 96 0 0 1 filled_state
      = Some (tt, st') ∧
    stat_hits st' = wrap64 (stat_hits filled_state + 1) ∧
    ((stat_hits filled_state + 1 < 2 ^ 64)%Z →
     stat_hits st' = (stat_hits filled_state + 1)%Z) ∧
    rd3 (repl_reused st') 0 0 5 = Some 1%Z ∧
    rd3 (repl_rrpv st') 0 0 5 = Some 0%Z ∧
    rd1 (SHCT st') s = Some (Z.min (c + 1) SHCT_MAX) ∧
    SHCT_MAX = 7%Z ∧
    repl_sig st' = repl_sig filled_state ∧
    (∀ cpu' set' way', (cpu', set', way') ≠ (0, 0, 5) →
       rd3 (repl_rrpv st') cpu' set' way'
         = rd3 (repl_rrpv filled_state) cpu' set' way' ∧
       rd3 (repl_reused st') cpu' set' way'
         = rd3 (repl_reused filled_state) cpu' set' way') ∧
    (∀ i, i ≠ s → rd1 (SHCT st') i = rd1 (SHCT filled_state) i) ∧
    stat_misses st' = stat_misses filled_state.
Proof.
  apply (hit_update filled_state 0 0 5 0 96 0 0 1).
  - apply (bool_decide_unpack _). vm_compute. exact I.
  - unfold in_range, LLC_SETS, NUM_CORE, LLC_WAYS. lia.
  - discriminate.
Defined.

(** ** The learning step *)

Lemma learn_spec (r c : Z) :
  (r = 0 ∨ r = 1)%Z → (0 ≤ c ≤ SHCT_MAX)%Z →
  learn r c = if (r =? 1)%Z then Z.min (c + 1) SHCT_MAX else Z.max (c - 1) 0.
Proof.
  intros [-> | ->] Hc; unfold learn; simpl.
  - by apply sat_dec_max.
  - by apply sat_inc_min.
Qed.

Lemma iter_learn_reused (n : nat) (c : Z) :
  (0 ≤ c ≤ SHCT_MAX)%Z →
  Nat.iter n (learn 1) c = Z.min (c + Z.of_nat n) SHCT_MAX.
Proof.
  intros Hc. induction n as [|n IH].
  - simpl. unfold SHCT_MAX in *. lia.
  - rewrite Nat.iter_succ, IH. rewrite learn_spec; [|by right|].
    + simpl. unfold SHCT_MAX in *. lia.
    + unfold SHCT_MAX in *. lia.
Qed.

Lemma iter_learn_dead (n : nat) (c : Z) :
  (0 ≤ c ≤ SHCT_MAX)%Z →
  Nat.iter n (learn 0) c = Z.max (c - Z.of_nat n) 0.
Proof.
  intros Hc. induction n as [|n IH].
  - simpl. lia.
  - rewrite Nat.iter_succ, IH. rewrite learn_spec; [|by left|].
    + simpl. lia.
    + unfold SHCT_MAX in *. lia.
Qed.

Lemma evict_lines_learn s r :
  ∀ lines st c,
    state_ok st → rd1 (SHCT st) s = Some c →
    NoDup (fst <$> lines) → Forall (line_holds st s r) lines →
    ∃ st',
      evict_lines lines st = Some (tt, st') ∧
      rd1 (SHCT st') s = Some (Nat.iter (length lines) (learn r) c).
Proof.
  induction lines as [|[[[cpu set] way] PC] lines IH]; intros st c Hok Hc Hnd Hall.
  - exists st. by split.
  - apply NoDup_cons in Hnd as [Hfresh Hnd].
    apply Forall_cons in Hall as [[Hs Hr] Hall].
    assert (in_range cpu set way) as Hrange.
    { eapply shape3_rd3_range; [|exact Hs]. apply Hok. }
    destruct (miss_effect st cpu set way 0 PC 0 0 Hok Hrange)
      as (st1 & s' & r' & c' & Hs' & Hr' & Hc' & Hrun & Hok1 & Hlearn & _ & Hframe).
    assert (s' = s) as -> by congruence.
    assert (r' = r) as -> by congruence.
    assert (c' = c) as -> by congruence.
    destruct (IH st1 (learn r c) Hok1 Hlearn Hnd) as (st' & Hrest & Hfinal).
    { apply Forall_forall. intros [[[cpu' set'] way'] PC'] Hin.
      pose proof (proj1 (Forall_forall _ _) Hall _ Hin) as [Hs1 Hr1].
      assert ((cpu', set', way') ≠ (cpu, set, way)) as Hne.
      { intros Heq. apply Hfresh. rewrite <- Heq.
        apply (list_elem_of_fmap_2 fst _ _ Hin). }
      unfold line_holds. destruct (Hframe _ _ _ Hne) as [-> ->]. by split. }
    exists st'. cbn [evict_lines]. rewrite (bind_run _ _ _ _ _ Hrun).
    split; [done|]. rewrite Hfinal. f_equal.
    cbn [length]. by rewrite Nat.iter_succ_r.
Qed.

(** C4 (eviction-time learning).  On a miss update, with [s] the signature
    and [r] the reuse flag stored on the line before the update, [SHCT[s]]
    is incremented saturating at [SHCT_MAX = 7] when [r = 1] and decremented
    saturating at 0 otherwise, and no other SHCT counter changes.
    Consequently, evicting [n] distinct lines that all hold signature [s]
    moves [SHCT[s]] from [c] to [min (c + n) 7] when they were all reused,
    and to [max (c - n) 0] when none was. *)
Theorem eviction_learning st :
  state_ok st →
  (∀ cpu set way paddr PC victim_addr type,
     in_range cpu set way →
     ∃ st' s r c,
       rd3 (repl_sig st) cpu set way = Some s ∧
       rd3 (repl_reused st) cpu set way = Some r ∧
       rd1 (SHCT st) s = Some c ∧
       NewPolicy.UpdateReplacementState cpu set way paddr PC victim_addr type 0 st
         = Some (tt, st') ∧
       rd1 (SHCT st') s
         = Some (if (r =? 1)%Z then Z.min (c + 1) SHCT_MAX else Z.max (c - 1) 0) ∧
       (∀ i, i ≠ s → rd1 (SHCT st') i = rd1 (SHCT st) i)) ∧
  (∀ s r c lines,
     rd1 (SHCT st) s = Some c →
     NoDup (fst <$> lines) → Forall (line_holds st s r) lines →
     ∃ st' c',
       evict_lines lines st = Some (tt, st') ∧
       rd1 (SHCT st') s = Some c' ∧
       (r = 1%Z → c' = Z.min (c + Z.of_nat (length lines)) SHCT_MAX ∧ (c ≤ c')%Z) ∧
       (r = 0%Z → c' = Z.max (c - Z.of_nat (length lines)) 0 ∧ (c' ≤ c)%Z)) ∧
  SHCT_MAX = 7%Z.
Proof.
  intros Hok. split; [|split; [|done]].
  - intros cpu set way paddr PC victim_addr type Hrange.
    destruct (miss_effect st cpu set way paddr PC victim_addr type Hok Hrange)
      as (st' & s & r & c & Hs & Hr & Hc & Hrun & _ & Hlearn & Hothers & _).
    exists st', s, r, c. repeat (split; [done|]). split; [|done].
    rewrite Hlearn. f_equal. apply learn_spec.
    + destruct Hok as (_ & _ & _ & _ & Hfl & _).
      apply (all3_rd3 _ _ _ _ _ _ Hfl Hr).
    + destruct Hok as (_ & _ & Hbs & _). by eapply SHCT_bounded_rd1.
  - intros s r c lines Hc Hnd Hall.
    destruct (evict_lines_learn s r lines st c Hok Hc Hnd Hall)
      as (st' & Hrun & Hfinal).
    assert (0 ≤ c ≤ SHCT_MAX)%Z as Hcb.
    { destruct Hok as (_ & _ & Hbs & _). by eapply SHCT_bounded_rd1. }
    exists st', (Nat.iter (length lines) (learn r) c).
    split; [done|]. split; [done|].
    split; intros ->.
    + rewrite iter_learn_reused by done. unfold SHCT_MAX in *. lia.
    + rewrite iter_learn_dead by done. lia.
Qed.

Lemma eviction_learning_witness :
  (∀ cpu set way paddr PC victim_addr type,
     in_range cpu set way →
     ∃ st' s r c,
       rd3 (repl_sig init_state) cpu set way = Some s ∧
       rd3 (repl_reused init_state) cpu set way = Some r ∧
       rd1 (SHCT init_state) s = Some c ∧
       NewPolicy.UpdateReplacementState cpu set way paddr PC victim_addr type 0
         init_state = Some (tt, st') ∧
       rd1 (SHCT st') s
         = Some (if (r =? 1)%Z then Z.min (c + 1) SHCT_MAX else Z.max (c - 1) 0) ∧
       (∀ i, i ≠ s → rd1 (SHCT st') i = rd1 (SHCT init_state) i)) ∧
  (∀ s r c lines,
     rd1 (SHCT init_state) s = Some c →
     NoDup (fst <$> lines) → Forall (line_holds init_state s r) lines →
     ∃ st' c',
       evict_lines lines init_state = Some (tt, st') ∧
       rd1 (SHCT st') s = Some c' ∧
       (r = 1%Z → c' = Z.min (c + Z.of_nat (length lines)) SHCT_MAX ∧ (c ≤ c')%Z) ∧
       (r = 0%Z → c' = Z.max (c - Z.of_nat (length lines)) 0 ∧ (c' ≤ c)%Z)) ∧
  SHCT_MAX = 7%Z.
Proof.
  apply (eviction_learning init_state).
  apply (bool_decide_unpack _). vm_compute. exact I.
Defined.

(** Six evictions of never-reused lines of signature 0 take its counter
    from the initial 4 down to 0, where it stays. *)
Example evict_six_dead_lines :
  rd1 (SHCT (exec (evict_lines
                     [(0, 0, 0, 16%Z); (0, 0, 1, 32%Z); (0, 1, 0, 48%Z);
                      (0, 1, 1, 64%Z); (0, 2, 0, 80%Z); (0, 2, 1, 96%Z)])
               init_state)) 0 = Some 0%Z.
Proof. vm_compute. reflexivity. Qed.

(** * Counter bounds *)

Lemma scan_ways_inv cpu set st found st' :
  scan_ways cpu set LLC_WAYS 0 st = Some (found, st') →
  is_Some (row3 (repl_rrpv st) cpu set).
Proof.
  unfold LLC_WAYS. cbn [scan_ways].
  intros (v & st2 & Hget & _)%bind_inv.
  unfold rrpv_get in Hget.
  destruct (rd3 (repl_rrpv st) cpu set 0) eqn:Hrd; [|done].
  apply rd3_Some_row3 in Hrd as (row & -> & _). by eexists.
Qed.

Lemma age_ways_inv f cpu set st st' :
  age_ways f cpu set LLC_WAYS 0 st = Some (tt, st') →
  is_Some (row3 (repl_rrpv st) cpu set).
Proof.
  unfold LLC_WAYS. cbn [age_ways].
  intros (v & st2 & Hget & _)%bind_inv.
  unfold rrpv_get in Hget.
  destruct (rd3 (repl_rrpv st) cpu set 0) eqn:Hrd; [|done].
  apply rd3_Some_row3 in Hrd as (row & -> & _). by eexists.
Qed.

Lemma age_ways_ok f cpu set st st' :
  (∀ v, (0 ≤ v ≤ MAX_RRPV)%Z → (0 ≤ age f v ≤ MAX_RRPV)%Z) →
  state_ok st → age_ways f cpu set LLC_WAYS 0 st = Some (tt, st') →
  state_ok st'.
Proof.
  intros Hf Hok Hrun.
  destruct (age_ways_inv _ _ _ _ _ Hrun) as [row Hrow].
  pose proof Hok as ((Hrr & _) & Hbr & _).
  pose proof (shape3_row3_length _ _ _ _ Hrr Hrow) as Hl.
  rewrite (age_ways_all _ _ _ _ _ Hrow Hl) in Hrun. injection Hrun as <-.
  apply state_ok_with_row; [done|by rewrite length_fmap|].
  apply Forall_fmap. eapply Forall_impl; [by eapply all3_row3|]. apply Hf.
Qed.

(** C6 (counter bounds).  In every state reachable by initialisation,
    victim selections and updates, every SHCT counter is in
    [[0, SHCT_MAX] = [0, 7]] and every [rrpv] is in [[0, MAX_RRPV] = [0, 7]].
    The saturating helpers keep a counter inside [[0, SHCT_MAX]], and both
    aging passes keep every [rrpv] of a bounded state inside
    [[0, MAX_RRPV]]. *)
Theorem counter_bounds st :
  Reach.reachable st →
  (∀ i c, rd1 (SHCT st) i = Some c → (0 ≤ c ≤ SHCT_MAX)%Z) ∧
  (∀ cpu set way v,
     rd3 (repl_rrpv st) cpu set way = Some v → (0 ≤ v ≤ MAX_RRPV)%Z) ∧
  SHCT_MAX = 7%Z ∧ MAX_RRPV = 7%Z ∧
  (∀ c, (0 ≤ c ≤ SHCT_MAX)%Z →
     (0 ≤ NewPolicy.sat_inc c SHCT_MAX ≤ SHCT_MAX)%Z ∧
     (0 ≤ NewPolicy.sat_dec c ≤ SHCT_MAX)%Z) ∧
  (∀ st0 st1 cpu set,
     state_ok st0 →
     age_ways incr8 cpu set LLC_WAYS 0 st0 = Some (tt, st1) ∨
     age_ways NewPolicy.plus2_sat cpu set LLC_WAYS 0 st0 = Some (tt, st1) →
     rrpv_bounded st1 ∧ SHCT_bounded st1).
Proof.
  intros Hreach. pose proof (reachable_ok _ Hreach) as (_ & Hbr & Hbs & _).
  split; [intros i c; by apply SHCT_bounded_rd1|].
  split; [intros cpu set way v; by apply (all3_rd3 _ _ _ _ _ _ Hbr)|].
  split; [done|]. split; [done|].
  split.
  - intros c Hc. rewrite sat_inc_min, sat_dec_max by done.
    unfold SHCT_MAX in *. lia.
  - intros st0 st1 cpu set Hok [Hrun|Hrun].
    + apply (age_ways_ok _ _ _ _ _ age_incr8_bounded Hok) in Hrun.
      split; apply Hrun.
    + apply (age_ways_ok _ _ _ _ _ age_plus2_bounded Hok) in Hrun.
      split; apply Hrun.
Qed.

Lemma counter_bounds_witness :
  (∀ i c, rd1 (SHCT refilled_state) i = Some c → (0 ≤ c ≤ SHCT_MAX)%Z) ∧
  (∀ cpu set way v,
     rd3 (repl_rrpv refilled_state) cpu set way = Some v → (0 ≤ v ≤ MAX_RRPV)%Z) ∧
  SHCT_MAX = 7%Z ∧ MAX_RRPV = 7%Z ∧
  (∀ c, (0 ≤ c ≤ SHCT_MAX)%Z →
     (0 ≤ NewPolicy.sat_inc c SHCT_MAX ≤ SHCT_MAX)%Z ∧
     (0 ≤ NewPolicy.sat_dec c ≤ SHCT_MAX)%Z) ∧
  (∀ st0 st1 cpu set,
     state_ok st0 →
     age_ways incr8 cpu set LLC_WAYS 0 st0 = Some (tt, st1) ∨
     age_ways NewPolicy.plus2_sat cpu set LLC_WAYS 0 st0 = Some (tt, st1) →
     rrpv_bounded st1 ∧ SHCT_bounded st1).
Proof.
  apply (counter_bounds refilled_state). apply refilled_state_reachable.
Defined.

(** * The baseline policy *)

Lemma Baseline_hit_run st cpu set way paddr PC victim_addr type hit v r :
  hit ≠ 0%Z →
  rd3 (repl_rrpv st) cpu set way = Some v →
  rd3 (repl_reused st) cpu set way = Some r →
  Baseline.UpdateReplacementState cpu set way paddr PC victim_addr type hit st =
    Some (tt, mkState
                (alter (alter (<[way := 0%Z]>) set) cpu (repl_rrpv st))
                (repl_sig st)
                (alter (alter (<[way := 1%Z]>) set) cpu (repl_reused st))
                (SHCT st) (wrap64 (stat_hits st + 1)) (stat_misses st)).
Proof.
  intros Hhit Hv Hr. unfold Baseline.UpdateReplacementState.
  rewrite (proj2 (Z.eqb_neq _ _) Hhit). cbn [negb].
  unfold stat_hits_incr at 1. rewrite (bind_run _ _ _ tt _ eq_refl).
  run_step reused_set_run. by eapply rrpv_set_run.
Qed.

(** The baseline indexes the SHCT with the stored signature as it is. *)
Lemma Baseline_miss_run st cpu set way paddr PC victim_addr type v s r c pred :
  rd3 (repl_rrpv st) cpu set way = Some v →
  rd3 (repl_sig st) cpu set way = Some s →
  rd3 (repl_reused st) cpu set way = Some r →
  rd1 (SHCT st) s = Some c →
  rd1 (<[Z.to_nat s := learn r c]> (SHCT st)) (signature PC) = Some pred →
  Baseline.UpdateReplacementState cpu set way paddr PC victim_addr type 0 st =
    Some (tt, mkState
                (alter (alter (<[way := baseline_insertion_rrpv pred]>) set) cpu
                   (repl_rrpv st))
                (alter (alter (<[way := signature PC]>) set) cpu (repl_sig st))
                (alter (alter (<[way := 0%Z]>) set) cpu (repl_reused st))
                (<[Z.to_nat s := learn r c]> (SHCT st))
                (stat_hits st) (wrap64 (stat_misses st + 1))).
Proof.
  intros Hv Hs Hr Hc Hpred. unfold Baseline.UpdateReplacementState.
  cbn [Z.eqb negb].
  unfold stat_misses_incr at 1. rewrite (bind_run _ _ _ tt _ eq_refl).
  run_step sig_get_run. run_step reused_get_run.
  rewrite (bind_run _ _ _ tt
             (mkState (repl_rrpv st) (repl_sig st) (repl_reused st)
                (<[Z.to_nat s := learn r c]> (SHCT st))
                (stat_hits st) (wrap64 (stat_misses st + 1)))).
  2:{ pose proof (rd1_inv _ _ _ Hc) as [_ Hlook].
      unfold learn, NewPolicy.sat_inc, NewPolicy.sat_dec.
      destruct (negb (r =? 0)%Z); run_step SHCT_get_run.
      - destruct (c <? SHCT_MAX)%Z; [by eapply SHCT_set_run|].
        by rewrite (list_insert_id _ _ _ Hlook).
      - destruct (c >? 0)%Z; [by eapply SHCT_set_run|].
        by rewrite (list_insert_id _ _ _ Hlook). }
  cbn [repl_rrpv repl_sig repl_reused SHCT stat_hits stat_misses].
  fold (signature PC).
  run_step sig_set_run. run_step reused_set_run. run_step SHCT_get_run.
  unfold baseline_insertion_rrpv.
  destruct (pred >=? THRESHOLD)%Z; by eapply rrpv_set_run.
Qed.

Lemma Baseline_inv st cpu set way paddr PC victim_addr type hit st' :
  Baseline.UpdateReplacementState cpu set way paddr PC victim_addr type hit st
    = Some (tt, st') →
  is_Some (rd3 (repl_rrpv st) cpu set way) ∧
  is_Some (rd3 (repl_reused st) cpu set way) ∧
  (hit = 0%Z →
   ∃ s, rd3 (repl_sig st) cpu set way = Some s ∧ is_Some (rd1 (SHCT st) s)).
Proof.
  unfold Baseline.UpdateReplacementState.
  destruct (Z.eqb_spec hit 0) as [->|Hhit]; cbn [negb].
  - intros ([] & st1 & [= <-] & H)%bind_inv.
    apply bind_inv in H as (s & st2 & Hsig & H).
    unfold sig_get in Hsig. simpl in Hsig.
    destruct (rd3 (repl_sig st) cpu set way) eqn:Hs; [|done].
    injection Hsig as <- <-.
    apply bind_inv in H as (r & st2 & Hreused & H).
    unfold reused_get in Hreused. simpl in Hreused.
    destruct (rd3 (repl_reused st) cpu set way) eqn:Hr; [|done].
    injection Hreused as <- <-.
    apply bind_inv in H as ([] & st3 & Hlearn & H).
    assert (is_Some (rd1 (SHCT st) z) ∧ repl_rrpv st3 = repl_rrpv st)
      as [Hc Hrr3].
    { revert Hlearn. clear. intros Hlearn.
      destruct (negb _);
        apply bind_inv in Hlearn as (c & st4 & Hc & H);
        unfold SHCT_get in Hc; simpl in Hc;
        destruct (rd1 (SHCT st) z); try done; injection Hc as <- <-;
        (split; [by eexists|]);
        destruct (_ : bool); try (by injection H as <-);
        unfold SHCT_set in H; destruct (wr1 _ _ _); try done;
        by injection H as <-. }
    apply bind_inv in H as ([] & st4 & Hss & H).
    apply bind_inv in H as ([] & st5 & Hrs & H).
    apply bind_inv in H as (pred & st6 & Hget & H).
    unfold sig_set in Hss. destruct (wr3 _ _ _ _ _) as [a|]; [|done].
    injection Hss as <-.
    unfold reused_set in Hrs. destruct (wr3 _ _ _ _ _) as [a'|]; [|done].
    injection Hrs as <-.
    unfold SHCT_get in Hget. destruct (rd1 _ _); [|done].
    injection Hget as <- <-.
    assert (is_Some (rd3 (repl_rrpv st) cpu set way)) as Hv.
    { rewrite <- Hrr3. revert H. clear.
      assert (∀ x st0, rrpv_set cpu set way x st0 = Some (tt, st') →
                       is_Some (rd3 (repl_rrpv st0) cpu set way)) as Hset.
      { intros x st0 Hx. unfold rrpv_set in Hx.
        destruct (wr3 _ _ _ _ _) eqn:Hwr; [|done].
        by apply wr3_inv in Hwr as [? _]. }
      simpl in Hset.
      destruct (_ : bool); intros H; by apply Hset in H. }
    split; [done|]. split; [by eexists|].
    intros _. by exists z.
  - intros ([] & st1 & [= <-] & H)%bind_inv.
    apply bind_inv in H as ([] & st2 & Hreused & Hrrpv).
    unfold reused_set in Hreused. simpl in Hreused.
    destruct (wr3 _ _ _ _ _) as [a|] eqn:Hwr in Hreused; [|done].
    apply wr3_inv in Hwr as [Hr ->]. injection Hreused as <-.
    unfold rrpv_set in Hrrpv. simpl in Hrrpv.
    destruct (wr3 _ _ _ _ _) as [a|] eqn:Hwr in Hrrpv; [|done].
    apply wr3_inv in Hwr as [Hv ->].
    split; [done|]. split; [done|]. by intros ?.
Qed.

Lemma Baseline_ok cpu set way paddr PC victim_addr type hit st st' :
  state_ok st →
  Baseline.UpdateReplacementState cpu set way paddr PC victim_addr type hit st
    = Some (tt, st') →
  state_ok st'.
Proof.
  intros Hok Hrun.
  destruct (Baseline_inv _ _ _ _ _ _ _ _ _ _ Hrun) as ([v Hv] & [r Hr] & Hmiss).
  destruct Hok as (Hdims & Hbr & Hbs & Hms & Hfl & Hst).
  pose proof Hdims as (Hrr & Hsg & Hre & Hlen).
  destruct (decide (hit = 0%Z)) as [->|Hhit].
  - destruct (Hmiss eq_refl) as (s & Hs & [c Hc]).
    pose proof (SHCT_bounded_rd1 _ _ _ Hbs Hc) as Hcb.
    destruct (rd1_Some (<[Z.to_nat s := learn r c]> (SHCT st))
                (signature PC)) as [pred Hpred].
    { rewrite length_insert, Hlen. pose proof (signature_range PC).
      unfold SHCT_SIZE in *. lia. }
    rewrite (Baseline_miss_run _ _ _ _ _ _ _ _ _ _ _ _ _ Hv Hs Hr Hc Hpred) in Hrun.
    injection Hrun as <-.
    repeat apply conj; simpl; try close_ok.
    apply all3_store; [done|]. unfold baseline_insertion_rrpv.
    rewrite MAX_RRPV_eq. destruct (_ : bool); lia.
  - rewrite (Baseline_hit_run _ _ _ _ _ _ _ _ _ _ _ Hhit Hv Hr) in Hrun.
    injection Hrun as <-.
    repeat apply conj; simpl; close_ok.
Qed.

Lemma victim_loop_ok cpu set :
  ∀ fuel st found st',
    state_ok st → Baseline.victim_loop cpu set fuel st = Some (found, st') →
    state_ok st'.
Proof.
  induction fuel as [|fuel IH]; intros st found st' Hok Hrun.
  - by injection Hrun as <- <-.
  - cbn [Baseline.victim_loop] in Hrun.
    apply bind_inv in Hrun as (r & st1 & Hscan & Hrun).
    destruct (scan_ways_inv _ _ _ _ _ Hscan) as [row Hrow].
    pose proof Hok as ((Hrr & _) & _).
    pose proof (shape3_row3_length _ _ _ _ Hrr Hrow) as Hl.
    rewrite (scan_ways_all _ _ _ _ Hrow Hl) in Hscan.
    injection Hscan as <- <-.
    destruct (first_max row); [by injection Hrun as <- <-|].
    apply bind_inv in Hrun as ([] & st2 & Hage & Hrun).
    eapply IH; [|exact Hrun].
    by eapply (age_ways_ok _ _ _ _ _ age_incr8_bounded).
Qed.

Lemma baseline_reachable_ok st : Reach.baseline_reachable st → state_ok st.
Proof.
  induction 1 as [st0 st Hdims Hinit|st fuel cpu set PC paddr type w st' _ IH Hrun
                 |st cpu set way paddr PC victim_addr type hit st' _ IH Hrun].
  - rewrite (InitReplacementState_run _ Hdims) in Hinit.
    injection Hinit as <-. apply init_state_ok.
  - by eapply victim_loop_ok.
  - by eapply Baseline_ok.
Qed.

(** With eight iterations of fuel the baseline selector returns on every
    state that satisfies the invariant: way 0 reaches [MAX_RRPV] after at
    most seven aging passes. *)
Lemma victim_loop_returns cpu set :
  ∀ fuel st row v,
    row3 (repl_rrpv st) cpu set = Some row → length row = LLC_WAYS →
    row !! 0 = Some v → (0 ≤ v ≤ MAX_RRPV)%Z → (MAX_RRPV - v < Z.of_nat fuel)%Z →
    ∃ w st', Baseline.victim_loop cpu set fuel st = Some (Some w, st').
Proof.
  induction fuel as [|fuel IH]; intros st row v Hrow Hlen Hv Hvb Hfuel.
  - lia.
  - cbn [Baseline.victim_loop].
    rewrite (bind_run _ _ _ _ _ (scan_ways_all _ _ _ _ Hrow Hlen)).
    destruct (first_max row) as [w|] eqn:Hfirst; [by eexists _, _|].
    rewrite (bind_run _ _ _ _ _ (age_ways_all _ _ _ _ _ Hrow Hlen)).
    pose proof (first_max_None _ Hfirst 0) as Hne.
    assert (v ≠ MAX_RRPV) as Hv7 by congruence.
    apply (IH _ (age incr8 <$> row) (v + 1)%Z).
    + by eapply row3_with_row.
    + by rewrite length_fmap.
    + rewrite list_lookup_fmap, Hv. simpl. f_equal.
      unfold age, incr8, wrap8. rewrite MAX_RRPV_eq in *.
      destruct (Z.ltb_spec v 7); [|lia]. apply Z.mod_small. lia.
    + lia.
    + lia.
Qed.

Lemma Baseline_victim_returns st cpu set PC paddr type :
  state_ok st → cpu < NUM_CORE → set < LLC_SETS →
  ∃ w st', Baseline.GetVictimInSet 8 cpu set PC paddr type st = Some (Some w, st').
Proof.
  intros ((Hshape & _) & Hbr & _) Hcpu Hset.
  destruct (shape3_row3 _ _ _ Hshape Hcpu Hset) as (row & Hrow & Hlen).
  destruct (lookup_lt_is_Some_2 row 0) as [v Hv]; [rewrite Hlen; unfold LLC_WAYS; lia|].
  pose proof (all3_row3 _ _ _ _ _ Hbr Hrow) as Hall.
  pose proof (proj1 (Forall_lookup _ _) Hall _ _ Hv) as Hvb. simpl in Hvb.
  apply (victim_loop_returns cpu set 8 st row v); try done.
  rewrite MAX_RRPV_eq in *. lia.
Qed.

(** C9 (the two learning steps agree).  On a line whose stored signature
    is below [SHCT_SIZE], whatever its reuse flag, the miss path of the
    baseline (unmasked index, explicit clamps) and the miss path of the
    improved policy (masked index, [sat_inc]/[sat_dec]) both return and
    leave the same SHCT array. *)
Theorem learning_steps_agree st cpu set way paddr PC victim_addr type s :
  dims_ok st → in_range cpu set way →
  rd3 (repl_sig st) cpu set way = Some s → (0 ≤ s < SHCT_SIZE)%Z →
  ∃ st_base st_new,
    Baseline.UpdateReplacementState cpu set way paddr PC victim_addr type 0 st
      = Some (tt, st_base) ∧
    NewPolicy.UpdateReplacementState cpu set way paddr PC victim_addr type 0 st
      = Some (tt, st_new) ∧
    SHCT st_base = SHCT st_new.
Proof.
  intros Hdims Hrange Hs Hsb.
  pose proof Hdims as (Hrr & Hsg & Hre & Hlen).
  destruct (shape3_rd3 _ _ _ _ Hrr Hrange) as [v Hv].
  destruct (shape3_rd3 _ _ _ _ Hre Hrange) as [r Hr].
  pose proof (sig_index_id s Hsb) as Hid.
  destruct (dims_SHCT_rd1 st s Hdims Hsb) as [c Hc].
  destruct (rd1_Some (<[Z.to_nat s := learn r c]> (SHCT st))
              (signature PC)) as [pred Hpred].
  { rewrite length_insert, Hlen. pose proof (signature_range PC).
    unfold SHCT_SIZE in *. lia. }
  eexists _, _.
  split; [by eapply Baseline_miss_run|].
  split; [eapply Update_miss_run; rewrite ?Hid; done|].
  cbn [SHCT]. by rewrite Hid.
Qed.

Lemma learning_steps_agree_witness :
  ∃ st_base st_new,
    Baseline.UpdateReplacementState 0 0 2 0 1600 0 0 0 filled_state
      = Some (tt, st_base) ∧
    NewPolicy.UpdateReplacementState 0 0 2 0 1600 0 0 0 filled_state
      = Some (tt, st_new) ∧
    SHCT st_base = SHCT st_new.
Proof.
  apply (learning_steps_agree filled_state 0 0 2 0 1600 0 0 3).
  - apply (bool_decide_unpack _). vm_compute. exact I.
  - unfold in_range, LLC_SETS, NUM_CORE, LLC_WAYS. lia.
  - vm_compute. reflexivity.
  - unfold SHCT_SIZE. lia.
Defined.

(** A state that no run reaches: with the signature 2000 stored on a line,
    the masked index of the improved policy stays inside the SHCT and the
    unmasked index of the baseline leaves it. *)
Example unmasked_index_out_of_bounds :
  let st := mkState (repl_rrpv init_state)
              (alter (alter (<[0 := 2000%Z]>) 0) 0 (repl_sig init_state))
              (repl_reused init_state) (SHCT init_state) 0 0 in
  Baseline.UpdateReplacementState 0 0 0 0 0 0 0 0 st = None ∧
  is_Some (NewPolicy.UpdateReplacementState 0 0 0 0 0 0 0 0 st).
Proof.
  split; [vm_compute; reflexivity|].
  apply (bool_decide_unpack _). vm_compute. exact I.
Qed.

(** C10 (stored signatures index the SHCT in bounds).  In every state
    reachable by either policy, every stored signature [s] is below
    [SHCT_SIZE = 1024]: masking leaves it unchanged, the defensive check
    [sig < SHCT_SIZE] of the improved policy succeeds, and [SHCT[s]] is
    inside the table.  Hence on every in-range line both updaters return,
    on the hit path and on the miss path, the baseline with its unmasked
    [SHCT[old_sig]] included. *)
Theorem stored_signatures_in_bounds st :
  Reach.reachable st ∨ Reach.baseline_reachable st →
  (∀ cpu set way s,
     rd3 (repl_sig st) cpu set way = Some s →
     (0 ≤ s < SHCT_SIZE)%Z ∧
     sig_index s = s ∧
     (sig_index s <? SHCT_SIZE)%Z = true ∧
     is_Some (rd1 (SHCT st) s)) ∧
  SHCT_SIZE = 1024%Z ∧
  (∀ cpu set way paddr PC victim_addr type hit,
     in_range cpu set way →
     is_Some (NewPolicy.UpdateReplacementState
                cpu set way paddr PC victim_addr type hit st) ∧
     is_Some (Baseline.UpdateReplacementState
                cpu set way paddr PC victim_addr type hit st)).
Proof.
  intros Hreach.
  assert (state_ok st) as Hok.
  { destruct Hreach; [by apply reachable_ok|by apply baseline_reachable_ok]. }
  pose proof Hok as (Hdims & _ & _ & Hms & _).
  pose proof Hdims as (Hrr & Hsg & Hre & Hlen).
  assert (∀ cpu set way s,
            rd3 (repl_sig st) cpu set way = Some s → (0 ≤ s < SHCT_SIZE)%Z)
    as Hmasked.
  { intros cpu set way s Hs. apply (all3_rd3 _ _ _ _ _ _ Hms Hs). }
  split; [|split; [done|]].
  - intros cpu set way s Hs. pose proof (Hmasked _ _ _ _ Hs) as Hsb.
    split; [done|]. split; [by apply sig_index_id|].
    split; [|by apply dims_SHCT_rd1].
    apply Z.ltb_lt, sig_index_range.
  - intros cpu set way paddr PC victim_addr type hit Hrange.
    destruct (shape3_rd3 _ _ _ _ Hrr Hrange) as [v Hv].
    destruct (shape3_rd3 _ _ _ _ Hsg Hrange) as [s Hs].
    destruct (shape3_rd3 _ _ _ _ Hre Hrange) as [r Hr].
    pose proof (Hmasked _ _ _ _ Hs) as Hsb.
    pose proof (sig_index_id s Hsb) as Hid.
    destruct (dims_SHCT_rd1 st s Hdims Hsb) as [c Hc].
    destruct (rd1_Some (<[Z.to_nat s := learn r c]> (SHCT st))
                (signature PC)) as [pred Hpred].
    { rewrite length_insert, Hlen. pose proof (signature_range PC).
      unfold SHCT_SIZE in *. lia. }
    destruct (decide (hit = 0%Z)) as [->|Hhit].
    + split.
      * eexists. eapply Update_miss_run; rewrite ?Hid; done.
      * eexists. by eapply Baseline_miss_run.
    + split.
      * eexists. eapply Update_hit_run; rewrite ?Hid; done.
      * eexists. by eapply Baseline_hit_run.
Qed.

Lemma stored_signatures_in_bounds_witness :
  (∀ cpu set way s,
     rd3 (repl_sig refilled_state) cpu set way = Some s →
     (0 ≤ s < SHCT_SIZE)%Z ∧
     sig_index s = s ∧
     (sig_index s <? SHCT_SIZE)%Z = true ∧
     is_Some (rd1 (SHCT refilled_state) s)) ∧
  SHCT_SIZE = 1024%Z ∧
  (∀ cpu set way paddr PC victim_addr type hit,
     in_range cpu set way →
     is_Some (NewPolicy.UpdateReplacementState
                cpu set way paddr PC victim_addr type hit refilled_state) ∧
     is_Some (Baseline.UpdateReplacementState
                cpu set way paddr PC victim_addr type hit refilled_state)).
Proof.
  apply (stored_signatures_in_bounds refilled_state).
  left. apply refilled_state_reachable.
Defined.

(** * Further properties of the victim selector *)

Lemma first_max_intro row w :
  row !! w = Some MAX_RRPV → (∀ j, j < w → row !! j ≠ Some MAX_RRPV) →
  first_max row = Some w.
Proof.
  intros Hw Hlow. unfold first_max.
  destruct (list_find _ row) as [[i x]|] eqn:Hfind.
  - apply list_find_Some in Hfind as (Hi & -> & Hmin). simpl. f_equal.
    destruct (Nat.lt_trichotomy i w) as [Hlt|[->|Hgt]]; [|done|].
    + by destruct (Hlow i Hlt).
    + by destruct (Hmin w MAX_RRPV Hw Hgt).
  - apply list_find_None in Hfind.
    by destruct (Forall_lookup_1 _ _ _ _ Hfind Hw).
Qed.

Lemma first_max_None_intro row :
  (∀ j, row !! j ≠ Some MAX_RRPV) → first_max row = None.
Proof.
  intros Hnone. destruct (first_max row) as [w|] eqn:Hfirst; [|done].
  apply first_max_Some in Hfirst as [Hw _]. by destruct (Hnone w).
Qed.

Lemma victim_of_found row w :
  first_max row = Some w → victim_of row = (w, row).
Proof. unfold victim_of. by intros ->. Qed.

Lemma victim_of_no_fallback row :
  fallback_taken row = false →
  first_max (snd (victim_of row)) = Some (fst (victim_of row)).
Proof.
  intros Hfb. unfold victim_of.
  destruct (first_max row) as [w|] eqn:Hfirst; [done|].
  destruct (first_max (age incr8 <$> row)) as [w|] eqn:Hsecond; [done|].
  assert (fallback_taken row = true) by (by apply fallback_taken_true).
  congruence.
Qed.

(** X1.  When a line of the set is already at [MAX_RRPV], the selector
    returns the lowest-index such way and leaves the whole state as it
    was: no line is aged. *)
Theorem victim_found_without_aging st cpu set PC paddr type w :
  dims_ok st →
  rd3 (repl_rrpv st) cpu set w = Some MAX_RRPV →
  (∀ j, j < w → rd3 (repl_rrpv st) cpu set j ≠ Some MAX_RRPV) →
  NewPolicy.GetVictimInSet cpu set PC paddr type st = Some (w, st).
Proof.
  intros (Hshape & _) Hw Hlow.
  destruct (rd3_Some_row3 _ _ _ _ _ Hw) as (row & Hrow & Hroww).
  pose proof (shape3_row3_length _ _ _ _ Hshape Hrow) as Hlen.
  rewrite (GetVictimInSet_run _ _ _ _ _ _ _ Hrow Hlen).
  rewrite (victim_of_found row w).
  - simpl. by rewrite with_row_same.
  - apply first_max_intro; [done|]. intros j Hj.
    rewrite <- (row3_rd3 _ _ _ _ _ Hrow). by apply Hlow.
Qed.

Lemma victim_found_without_aging_witness :
  NewPolicy.GetVictimInSet 0 5 0 0 0 filled_state = Some (0, filled_state).
Proof.
  apply (victim_found_without_aging filled_state 0 5 0 0 0 0).
  - apply (bool_decide_unpack _). vm_compute. exact I.
  - vm_compute. reflexivity.
  - intros j Hj. lia.
Defined.

(** X2.  Ties are broken by the lowest way index, also after the +1 aging
    pass: unless the fallback is taken, the returned way is at [MAX_RRPV]
    in the state the selector leaves and no way of lower index is. *)
Theorem victim_lowest_index st cpu set PC paddr type :
  dims_ok st → cpu < NUM_CORE → set < LLC_SETS →
  ∃ row w st',
    row3 (repl_rrpv st) cpu set = Some row ∧
    NewPolicy.GetVictimInSet cpu set PC paddr type st = Some (w, st') ∧
    (fallback_taken row = false →
     rd3 (repl_rrpv st') cpu set w = Some MAX_RRPV ∧
     ∀ j, j < w → rd3 (repl_rrpv st') cpu set j ≠ Some MAX_RRPV).
Proof.
  intros (Hshape & _) Hcpu Hset.
  destruct (shape3_row3 _ _ _ Hshape Hcpu Hset) as (row & Hrow & Hlen).
  exists row, (fst (victim_of row)), (with_row st cpu set (snd (victim_of row))).
  split; [done|]. split; [by apply GetVictimInSet_run|].
  intros Hfb. apply victim_of_no_fallback, first_max_Some in Hfb as [Hw Hlow].
  split.
  - by rewrite (rd3_with_row _ _ _ _ _ _ Hrow).
  - intros j Hj. rewrite (rd3_with_row _ _ _ _ _ _ Hrow). by apply Hlow.
Qed.

Lemma victim_lowest_index_witness :
  ∃ row w st',
    row3 (repl_rrpv filled_state) 0 3 = Some row ∧
    NewPolicy.GetVictimInSet 0 3 0 0 0 filled_state = Some (w, st') ∧
    (fallback_taken row = false →
     rd3 (repl_rrpv st') 0 3 w = Some MAX_RRPV ∧
     ∀ j, j < w → rd3 (repl_rrpv st') 0 3 j ≠ Some MAX_RRPV).
Proof.
  apply (victim_lowest_index filled_state 0 3 0 0 0).
  - apply (bool_decide_unpack _). vm_compute. exact I.
  - unfold NUM_CORE. lia.
  - unfold LLC_SETS, NUM_CORE. lia.
Defined.

(** X3.  A selection that did not take the fallback is stable: asking again
    (for any access) returns the same way and changes nothing. *)
Theorem victim_selection_stable st cpu set PC paddr type PC' paddr' type' :
  dims_ok st → cpu < NUM_CORE → set < LLC_SETS →
  ∃ row w st',
    row3 (repl_rrpv st) cpu set = Some row ∧
    NewPolicy.GetVictimInSet cpu set PC paddr type st = Some (w, st') ∧
    (fallback_taken row = false →
     NewPolicy.GetVictimInSet cpu set PC' paddr' type' st' = Some (w, st')).
Proof.
  intros (Hshape & _) Hcpu Hset.
  destruct (shape3_row3 _ _ _ Hshape Hcpu Hset) as (row & Hrow & Hlen).
  exists row, (fst (victim_of row)), (with_row st cpu set (snd (victim_of row))).
  split; [done|]. split; [by apply GetVictimInSet_run|].
  intros Hfb. apply victim_of_no_fallback in Hfb.
  pose proof (row3_with_row _ _ _ _ (snd (victim_of row)) Hrow) as Hrow'.
  rewrite (GetVictimInSet_run _ _ _ _ _ _ _ Hrow').
  - rewrite (victim_of_found _ _ Hfb). cbn [fst snd].
    by rewrite with_row_with_row.
  - by rewrite victim_of_length.
Qed.

Lemma victim_selection_stable_witness :
  ∃ row w st',
    row3 (repl_rrpv filled_state) 0 9 = Some row ∧
    NewPolicy.GetVictimInSet 0 9 0 0 0 filled_state = Some (w, st') ∧
    (fallback_taken row = false →
     NewPolicy.GetVictimInSet 0 9 64 0 1 st' = Some (w, st')).
Proof.
  apply (victim_selection_stable filled_state 0 9 0 0 0 64 0 1).
  - apply (bool_decide_unpack _). vm_compute. exact I.
  - unfold NUM_CORE. lia.
  - unfold LLC_SETS, NUM_CORE. lia.
Defined.

(** The three rows a selection can leave, element by element. *)
Lemma age_incr8_value (v : Z) :
  (0 ≤ v ≤ MAX_RRPV)%Z → age incr8 v = Z.min (v + 1) MAX_RRPV.
Proof.
  unfold age, incr8, wrap8. rewrite MAX_RRPV_eq. intros Hv.
  destruct (Z.ltb_spec v 7); [|lia]. rewrite Z.mod_small by lia. lia.
Qed.

Lemma age_plus2_value (v : Z) :
  (0 ≤ v ≤ MAX_RRPV)%Z → age NewPolicy.plus2_sat v = Z.min (v + 2) MAX_RRPV.
Proof.
  unfold age, NewPolicy.plus2_sat, wrap8. rewrite MAX_RRPV_eq. intros Hv.
  destruct (Z.ltb_spec v 7); [|lia].
  destruct (Z.gtb_spec (v + 2) 7); rewrite Z.mod_small by lia; lia.
Qed.

Lemma fallback_taken_values row :
  Forall (λ v, 0 ≤ v ≤ MAX_RRPV)%Z row →
  fallback_taken row = true ↔ Forall (λ v, v ≤ MAX_RRPV - 2)%Z row.
Proof.
  intros Hb. rewrite fallback_taken_true. split.
  - intros [Hfirst Hsecond]. apply Forall_lookup_2. intros j v Hj.
    pose proof (Forall_lookup_1 _ _ _ _ Hb Hj) as Hv. simpl in Hv.
    pose proof (first_max_None _ Hfirst j) as H7.
    pose proof (first_max_None _ Hsecond j) as H6.
    rewrite list_lookup_fmap, Hj in H6. simpl in H6.
    rewrite age_incr8_value in H6 by done.
    rewrite MAX_RRPV_eq in *.
    assert (v ≠ 7%Z) by congruence.
    assert (Z.min (v + 1) 7 ≠ 7%Z) by congruence. lia.
  - intros Hlow. split; apply first_max_None_intro; intros j Hj.
    + pose proof (Forall_lookup_1 _ _ _ _ Hlow Hj) as Hv. simpl in Hv.
      rewrite MAX_RRPV_eq in Hv. lia.
    + rewrite list_lookup_fmap in Hj.
      destruct (row !! j) as [v|] eqn:Hv; [|done]. simpl in Hj.
      pose proof (Forall_lookup_1 _ _ _ _ Hlow Hv) as Hv5. simpl in Hv5.
      pose proof (Forall_lookup_1 _ _ _ _ Hb Hv) as Hvb. simpl in Hvb.
      rewrite age_incr8_value in Hj by done.
      rewrite MAX_RRPV_eq in *. injection Hj as Hj. lia.
Qed.

(** X4.  In a state that satisfies the invariant, the selector takes its
    fallback exactly when every line of the set has [rrpv <= MAX_RRPV - 2];
    it then returns way 0 and leaves every line of the set at
    [min (rrpv + 3) MAX_RRPV].  So the way the fallback returns is at
    [MAX_RRPV] only if way 0 started at [rrpv >= 4]. *)
Theorem fallback_by_values st cpu set PC paddr type :
  state_ok st → cpu < NUM_CORE → set < LLC_SETS →
  ∃ row w st',
    row3 (repl_rrpv st) cpu set = Some row ∧
    NewPolicy.GetVictimInSet cpu set PC paddr type st = Some (w, st') ∧
    (fallback_taken row = true ↔
     ∀ way v, rd3 (repl_rrpv st) cpu set way = Some v → (v ≤ MAX_RRPV - 2)%Z) ∧
    (fallback_taken row = true →
     w = 0 ∧
     ∀ way v,
       rd3 (repl_rrpv st) cpu set way = Some v →
       rd3 (repl_rrpv st') cpu set way = Some (Z.min (v + 3) MAX_RRPV)).
Proof.
  intros ((Hshape & _) & Hbr & _) Hcpu Hset.
  destruct (shape3_row3 _ _ _ Hshape Hcpu Hset) as (row & Hrow & Hlen).
  pose proof (all3_row3 _ _ _ _ _ Hbr Hrow) as Hb.
  exists row, (fst (victim_of row)), (with_row st cpu set (snd (victim_of row))).
  split; [done|]. split; [by apply GetVictimInSet_run|].
  split.
  - rewrite (fallback_taken_values _ Hb). split.
    + intros Hlow way v Hv. rewrite (row3_rd3 _ _ _ _ _ Hrow) in Hv.
      apply (Forall_lookup_1 _ _ _ _ Hlow Hv).
    + intros Hlow. apply Forall_lookup_2. intros j v Hv.
      apply (Hlow j). by rewrite (row3_rd3 _ _ _ _ _ Hrow).
  - intros Hfb. pose proof (proj1 (fallback_taken_values _ Hb) Hfb) as Hlow.
    apply fallback_taken_true in Hfb as [Hfirst Hsecond].
    unfold victim_of. rewrite Hfirst, Hsecond. cbn [fst snd].
    split; [done|]. intros way v Hv.
    rewrite (rd3_with_row _ _ _ _ _ _ Hrow).
    rewrite (row3_rd3 _ _ _ _ _ Hrow) in Hv.
    rewrite !list_lookup_fmap, Hv. simpl. f_equal.
    pose proof (Forall_lookup_1 _ _ _ _ Hlow Hv) as Hv5. simpl in Hv5.
    pose proof (Forall_lookup_1 _ _ _ _ Hb Hv) as Hvb. simpl in Hvb.
    rewrite age_incr8_value by done.
    rewrite age_plus2_value by (rewrite MAX_RRPV_eq in *; lia).
    rewrite MAX_RRPV_eq in *. lia.
Qed.

Lemma fallback_by_values_witness :
  ∃ row w st',
    row3 (repl_rrpv refilled_state) 0 0 = Some row ∧
    NewPolicy.GetVictimInSet 0 0 0 0 0 refilled_state = Some (w, st') ∧
    (fallback_taken row = true ↔
     ∀ way v, rd3 (repl_rrpv refilled_state) 0 0 way = Some v →
              (v ≤ MAX_RRPV - 2)%Z) ∧
    (fallback_taken row = true →
     w = 0 ∧
     ∀ way v,
       rd3 (repl_rrpv refilled_state) 0 0 way = Some v →
       rd3 (repl_rrpv st') 0 0 way = Some (Z.min (v + 3) MAX_RRPV)).
Proof.
  apply (fallback_by_values refilled_state 0 0 0 0 0).
  - apply (bool_decide_unpack _). vm_compute. exact I.
  - unfold NUM_CORE. lia.
  - unfold LLC_SETS, NUM_CORE. lia.
Defined.

Lemma victim_of_element row j v :
  Forall (λ v, 0 ≤ v ≤ MAX_RRPV)%Z row → row !! j = Some v →
  ∃ v', snd (victim_of row) !! j = Some v' ∧
        (v ≤ v' ≤ Z.min (v + 3) MAX_RRPV)%Z.
Proof.
  intros Hb Hj.
  pose proof (Forall_lookup_1 _ _ _ _ Hb Hj) as Hv. simpl in Hv.
  unfold victim_of. destruct (first_max row).
  { exists v. split; [done|]. lia. }
  destruct (first_max _).
  { exists (age incr8 v). cbn [snd]. split; [by rewrite list_lookup_fmap, Hj|].
    rewrite age_incr8_value by done. lia. }
  exists (age NewPolicy.plus2_sat (age incr8 v)). cbn [snd].
  split; [by rewrite !list_lookup_fmap, Hj|].
  rewrite age_incr8_value by done.
  rewrite age_plus2_value by lia. lia.
Qed.

(** X5.  A selection never lowers an [rrpv] and never raises one by more
    than 3: in a state that satisfies the invariant, every line of the
    targeted set ends between its old value and [min (old + 3) MAX_RRPV]. *)
Theorem selection_only_ages st cpu set way PC paddr type :
  state_ok st → in_range cpu set way →
  ∃ w st' v v',
    NewPolicy.GetVictimInSet cpu set PC paddr type st = Some (w, st') ∧
    rd3 (repl_rrpv st) cpu set way = Some v ∧
    rd3 (repl_rrpv st') cpu set way = Some v' ∧
    (v ≤ v' ≤ Z.min (v + 3) MAX_RRPV)%Z.
Proof.
  intros ((Hshape & _) & Hbr & _) (Hcpu & Hset & Hway).
  destruct (shape3_row3 _ _ _ Hshape Hcpu Hset) as (row & Hrow & Hlen).
  pose proof (all3_row3 _ _ _ _ _ Hbr Hrow) as Hb.
  destruct (lookup_lt_is_Some_2 row way) as [v Hv]; [lia|].
  destruct (victim_of_element row way v Hb Hv) as (v' & Hv' & Hbound).
  exists (fst (victim_of row)), (with_row st cpu set (snd (victim_of row))), v, v'.
  split; [by apply GetVictimInSet_run|].
  split; [by rewrite (row3_rd3 _ _ _ _ _ Hrow)|].
  split; [by rewrite (rd3_with_row _ _ _ _ _ _ Hrow)|done].
Qed.

Lemma selection_only_ages_witness :
  ∃ w st' v v',
    NewPolicy.GetVictimInSet 0 0 0 0 0 refilled_state = Some (w, st') ∧
    rd3 (repl_rrpv refilled_state) 0 0 4 = Some v ∧
    rd3 (repl_rrpv st') 0 0 4 = Some v' ∧
    (v ≤ v' ≤ Z.min (v + 3) MAX_RRPV)%Z.
Proof.
  apply (selection_only_ages refilled_state 0 0 4 0 0 0).
  - apply (bool_decide_unpack _). vm_compute. exact I.
  - unfold in_range, LLC_SETS, NUM_CORE, LLC_WAYS. lia.
Defined.

(** X6.  A line that was just hit is not the next victim of its set, except
    through the fallback: after a hit on [way], a selection in the same set
    that finds a line at [MAX_RRPV] in one of its two scans returns another
    way. *)
Theorem hit_line_is_protected st cpu set way paddr PC victim_addr type hit
    PC' paddr' type' :
  state_ok st → in_range cpu set way → hit ≠ 0%Z →
  ∃ st1 row1 w st2,
    NewPolicy.UpdateReplacementState cpu set way paddr PC victim_addr type hit st
      = Some (tt, st1) ∧
    row3 (repl_rrpv st1) cpu set = Some row1 ∧
    NewPolicy.GetVictimInSet cpu set PC' paddr' type' st1 = Some (w, st2) ∧
    (fallback_taken row1 = false → w ≠ way).
Proof.
  intros Hok Hrange Hhit.
  destruct (hit_effect st cpu set way paddr PC victim_addr type hit Hok Hrange Hhit)
    as (s & c & v & r & Hs & Hc & Hrun & Hv & Hr & Hs0).
  pose proof (Update_ok _ _ _ _ _ _ _ _ _ _ Hok Hrun) as ((Hshape1 & _) & _).
  destruct Hrange as (Hcpu & Hset & Hway).
  destruct (shape3_row3 _ _ _ Hshape1 Hcpu Hset) as (row1 & Hrow1 & Hlen1).
  eexists _, row1, (fst (victim_of row1)), _.
  split; [exact Hrun|]. split; [done|].
  split; [by apply GetVictimInSet_run|].
  assert (row1 !! way = Some 0%Z) as Hway0.
  { rewrite <- (row3_rd3 _ _ _ _ _ Hrow1). cbn [repl_rrpv].
    by eapply rd3_alter_eq. }
  intros Hfb Heq. apply victim_of_no_fallback in Hfb. rewrite Heq in Hfb.
  apply first_max_Some in Hfb as [Hmax _]. revert Hmax. unfold victim_of.
  destruct (first_max row1); [cbn [snd]; rewrite Hway0; discriminate|].
  destruct (first_max _); cbn [snd]; rewrite !list_lookup_fmap, Hway0;
    discriminate.
Qed.

Lemma hit_line_is_protected_witness :
  ∃ st1 row1 w st2,
    NewPolicy.UpdateReplacementState 0 0 0 0 16 0 0 1 init_state
      = Some (tt, st1) ∧
    row3 (repl_rrpv st1) 0 0 = Some row1 ∧
    NewPolicy.GetVictimInSet 0 0 32 0 0 st1 = Some (w, st2) ∧
    (fallback_taken row1 = false → w ≠ 0).
Proof.
  apply (hit_line_is_protected init_state 0 0 0 0 16 0 0 1 32 0 0).
  - apply (bool_decide_unpack _). vm_compute. exact I.
  - unfold in_range, LLC_SETS, NUM_CORE, LLC_WAYS. lia.
  - discriminate.
Defined.

(** * Further properties of the baseline selector *)

Lemma victim_loop_found cpu set :
  ∀ fuel st row v,
    row3 (repl_rrpv st) cpu set = Some row → length row = LLC_WAYS →
    row !! 0 = Some v → (0 ≤ v ≤ MAX_RRPV)%Z → (MAX_RRPV - v < Z.of_nat fuel)%Z →
    ∃ w row',
      Baseline.victim_loop cpu set fuel st
        = Some (Some w, with_row st cpu set row') ∧
      length row' = LLC_WAYS ∧ first_max row' = Some w.
Proof.
  induction fuel as [|fuel IH]; intros st row v Hrow Hlen Hv Hvb Hfuel.
  - lia.
  - cbn [Baseline.victim_loop].
    rewrite (bind_run _ _ _ _ _ (scan_ways_all _ _ _ _ Hrow Hlen)).
    destruct (first_max row) as [w|] eqn:Hfirst.
    { exists w, row. by rewrite with_row_same. }
    rewrite (bind_run _ _ _ _ _ (age_ways_all _ _ _ _ _ Hrow Hlen)).
    pose proof (first_max_None _ Hfirst 0) as Hne.
    assert (v ≠ MAX_RRPV) as Hv7 by congruence.
    destruct (IH (with_row st cpu set (age incr8 <$> row))
                (age incr8 <$> row) (v + 1)%Z) as (w & row' & Hrun & Hlen' & Hw).
    + by eapply row3_with_row.
    + by rewrite length_fmap.
    + rewrite list_lookup_fmap, Hv. simpl. f_equal.
      rewrite age_incr8_value by done. lia.
    + lia.
    + lia.
    + exists w, row'. by rewrite Hrun, with_row_with_row.
Qed.

Lemma victim_loop_more_fuel cpu set k :
  ∀ fuel st w st',
    Baseline.victim_loop cpu set fuel st = Some (Some w, st') →
    Baseline.victim_loop cpu set (fuel + k) st = Some (Some w, st').
Proof.
  induction fuel as [|fuel IH]; intros st w st' Hrun.
  - done.
  - cbn [Baseline.victim_loop Nat.add] in *.
    apply bind_inv in Hrun as (found & st1 & Hscan & Hrun).
    rewrite (bind_run _ _ _ _ _ Hscan).
    destruct found as [w0|]; [done|].
    apply bind_inv in Hrun as ([] & st2 & Hage & Hrun).
    rewrite (bind_run _ _ _ _ _ Hage). by apply IH.
Qed.

(** X7.  On a state that satisfies the invariant the baseline selector
    returns within eight iterations of its [while (true)] loop (more fuel
    gives the same result).  The way it returns is below [LLC_WAYS], is at
    [MAX_RRPV] in the state it leaves, and is the lowest-index such way;
    only the [rrpv] row of the targeted set changes. *)
Theorem baseline_victim_at_max st cpu set PC paddr type fuel :
  state_ok st → cpu < NUM_CORE → set < LLC_SETS → 8 ≤ fuel →
  ∃ w st',
    Baseline.GetVictimInSet fuel cpu set PC paddr type st = Some (Some w, st') ∧
    Baseline.GetVictimInSet 8 cpu set PC paddr type st = Some (Some w, st') ∧
    w < LLC_WAYS ∧
    rd3 (repl_rrpv st') cpu set w = Some MAX_RRPV ∧
    (∀ j, j < w → rd3 (repl_rrpv st') cpu set j ≠ Some MAX_RRPV) ∧
    repl_sig st' = repl_sig st ∧
    repl_reused st' = repl_reused st ∧
    SHCT st' = SHCT st ∧
    stat_hits st' = stat_hits st ∧
    stat_misses st' = stat_misses st ∧
    ∀ cpu' set', (cpu', set') ≠ (cpu, set) →
      row3 (repl_rrpv st') cpu' set' = row3 (repl_rrpv st) cpu' set'.
Proof.
  intros ((Hshape & _) & Hbr & _) Hcpu Hset Hfuel.
  destruct (shape3_row3 _ _ _ Hshape Hcpu Hset) as (row & Hrow & Hlen).
  destruct (lookup_lt_is_Some_2 row 0) as [v Hv];
    [rewrite Hlen; unfold LLC_WAYS; lia|].
  pose proof (all3_row3 _ _ _ _ _ Hbr Hrow) as Hall.
  pose proof (Forall_lookup_1 _ _ _ _ Hall Hv) as Hvb. simpl in Hvb.
  destruct (victim_loop_found cpu set 8 st row v Hrow Hlen Hv Hvb)
    as (w & row' & Hrun & Hlen' & Hw); [rewrite MAX_RRPV_eq in *; lia|].
  exists w, (with_row st cpu set row').
  apply first_max_Some in Hw as [Hmax Hlow].
  split.
  { unfold Baseline.GetVictimInSet.
    replace fuel with (8 + (fuel - 8)) by lia.
    by apply victim_loop_more_fuel. }
  split; [done|].
  split; [apply lookup_lt_Some in Hmax; lia|].
  split; [by rewrite (rd3_with_row _ _ _ _ _ _ Hrow)|].
  split.
  { intros j Hj. rewrite (rd3_with_row _ _ _ _ _ _ Hrow). by apply Hlow. }
  repeat (split; [done|]).
  intros cpu' set' Hne. simpl. by apply row3_alter_ne.
Qed.

Lemma baseline_victim_at_max_witness :
  ∃ w st',
    Baseline.GetVictimInSet 20 0 0 0 0 0 filled_state = Some (Some w, st') ∧
    Baseline.GetVictimInSet 8 0 0 0 0 0 filled_state = Some (Some w, st') ∧
    w < LLC_WAYS ∧
    rd3 (repl_rrpv st') 0 0 w = Some MAX_RRPV ∧
    (∀ j, j < w → rd3 (repl_rrpv st') 0 0 j ≠ Some MAX_RRPV) ∧
    repl_sig st' = repl_sig filled_state ∧
    repl_reused st' = repl_reused filled_state ∧
    SHCT st' = SHCT filled_state ∧
    stat_hits st' = stat_hits filled_state ∧
    stat_misses st' = stat_misses filled_state ∧
    ∀ cpu' set', (cpu', set') ≠ (0, 0) →
      row3 (repl_rrpv st') cpu' set' = row3 (repl_rrpv filled_state) cpu' set'.
Proof.
  apply (baseline_victim_at_max filled_state 0 0 0 0 0 20).
  - apply (bool_decide_unpack _). vm_compute. exact I.
  - unfold NUM_CORE. lia.
  - unfold LLC_SETS, NUM_CORE. lia.
  - lia.
Defined.

Lemma age_above_max f row :
  Forall (λ v, MAX_RRPV < v)%Z row → age f <$> row = row.
Proof.
  intros Hrow. apply list_eq. intros j. rewrite list_lookup_fmap.
  destruct (row !! j) as [v|] eqn:Hv; [|done]. simpl. f_equal.
  pose proof (Forall_lookup_1 _ _ _ _ Hrow Hv) as Hgt. simpl in Hgt.
  unfold age. destruct (Z.ltb_spec v MAX_RRPV); [lia|done].
Qed.

Lemma first_max_above_max row :
  Forall (λ v, MAX_RRPV < v)%Z row → first_max row = None.
Proof.
  intros Hrow. apply first_max_None_intro. intros j Hj.
  pose proof (Forall_lookup_1 _ _ _ _ Hrow Hj) as Hgt. simpl in Hgt. lia.
Qed.

(** X8.  The [uint8_t] cells admit values above [MAX_RRPV] (no run
    produces them).  On a set whose lines are all above [MAX_RRPV] the
    baseline loop finds no candidate and ages nothing, so it never
    returns: whatever the fuel, it runs out with the state unchanged.  The
    improved selector returns way 0 on the same state. *)
Theorem baseline_victim_never_returns st cpu set PC paddr type fuel :
  dims_ok st → cpu < NUM_CORE → set < LLC_SETS →
  (∀ way v, rd3 (repl_rrpv st) cpu set way = Some v → (MAX_RRPV < v)%Z) →
  Baseline.GetVictimInSet fuel cpu set PC paddr type st = Some (None, st) ∧
  NewPolicy.GetVictimInSet cpu set PC paddr type st = Some (0, st).
Proof.
  intros (Hshape & _) Hcpu Hset Habove.
  destruct (shape3_row3 _ _ _ Hshape Hcpu Hset) as (row & Hrow & Hlen).
  assert (Forall (λ v, MAX_RRPV < v)%Z row) as Hall.
  { apply Forall_lookup_2. intros j v Hv. apply (Habove j).
    by rewrite (row3_rd3 _ _ _ _ _ Hrow). }
  pose proof (first_max_above_max _ Hall) as Hfirst.
  split.
  - unfold Baseline.GetVictimInSet. induction fuel as [|fuel IH]; [done|].
    cbn [Baseline.victim_loop].
    rewrite (bind_run _ _ _ _ _ (scan_ways_all _ _ _ _ Hrow Hlen)), Hfirst.
    rewrite (bind_run _ _ _ _ _ (age_ways_all _ _ _ _ _ Hrow Hlen)).
    rewrite (age_above_max _ _ Hall), (with_row_same _ _ _ _ Hrow). exact IH.
  - rewrite (GetVictimInSet_run _ _ _ _ _ _ _ Hrow Hlen). unfold victim_of.
    rewrite Hfirst, (age_above_max _ _ Hall), Hfirst. cbn [fst snd].
    by rewrite (age_above_max _ _ Hall), (with_row_same _ _ _ _ Hrow).
Qed.

Lemma baseline_victim_never_returns_witness :
  Baseline.GetVictimInSet 1000 0 0 0 0 0 stuck_state = Some (None, stuck_state) ∧
  NewPolicy.GetVictimInSet 0 0 0 0 0 stuck_state = Some (0, stuck_state).
Proof.
  apply (baseline_victim_never_returns stuck_state 0 0 0 0 0 1000).
  - apply (bool_decide_unpack _). vm_compute. exact I.
  - unfold NUM_CORE. lia.
  - unfold LLC_SETS, NUM_CORE. lia.
  - intros way v Hv.
    assert (row3 (repl_rrpv stuck_state) 0 0 = Some (replicate LLC_WAYS 8%Z))
      as Hrow by (vm_compute; reflexivity).
    rewrite (row3_rd3 _ _ _ _ _ Hrow) in Hv.
    apply lookup_replicate in Hv as [-> _]. vm_compute. reflexivity.
Defined.

(** X9.  The two selectors agree whenever the improved one does not take
    its fallback: if one of its two scans finds a line at [MAX_RRPV], the
    baseline loop (with fuel for two iterations or more) returns the same
    way and leaves the same state. *)
Theorem selectors_agree_without_fallback st cpu set PC paddr type fuel :
  dims_ok st → cpu < NUM_CORE → set < LLC_SETS → 2 ≤ fuel →
  ∃ row w st',
    row3 (repl_rrpv st) cpu set = Some row ∧
    NewPolicy.GetVictimInSet cpu set PC paddr type st = Some (w, st') ∧
    (fallback_taken row = false →
     Baseline.GetVictimInSet fuel cpu set PC paddr type st = Some (Some w, st')).
Proof.
  intros (Hshape & _) Hcpu Hset Hfuel.
  destruct (shape3_row3 _ _ _ Hshape Hcpu Hset) as (row & Hrow & Hlen).
  exists row, (fst (victim_of row)), (with_row st cpu set (snd (victim_of row))).
  split; [done|]. split; [by apply GetVictimInSet_run|].
  intros Hfb. unfold Baseline.GetVictimInSet.
  destruct fuel as [|[|fuel]]; [lia|lia|].
  cbn [Baseline.victim_loop].
  rewrite (bind_run _ _ _ _ _ (scan_ways_all _ _ _ _ Hrow Hlen)).
  unfold victim_of.
  destruct (first_max row) as [w|] eqn:Hfirst.
  { cbn [fst snd]. by rewrite with_row_same. }
  rewrite (bind_run _ _ _ _ _ (age_ways_all _ _ _ _ _ Hrow Hlen)).
  set (row1 := age incr8 <$> row) in *.
  assert (length row1 = LLC_WAYS) as Hlen1 by (unfold row1; by rewrite length_fmap).
  pose proof (row3_with_row _ _ _ _ row1 Hrow) as Hrow1.
  rewrite (bind_run _ _ _ _ _ (scan_ways_all _ _ _ _ Hrow1 Hlen1)).
  destruct (first_max row1) as [w|] eqn:Hsecond; [done|].
  assert (fallback_taken row = true) by (by apply fallback_taken_true).
  congruence.
Qed.

Lemma selectors_agree_without_fallback_witness :
  ∃ row w st',
    row3 (repl_rrpv filled_state) 0 3 = Some row ∧
    NewPolicy.GetVictimInSet 0 3 0 0 0 filled_state = Some (w, st') ∧
    (fallback_taken row = false →
     Baseline.GetVictimInSet 2 0 3 0 0 0 filled_state = Some (Some w, st')).
Proof.
  apply (selectors_agree_without_fallback filled_state 0 3 0 0 0 2).
  - apply (bool_decide_unpack _). vm_compute. exact I.
  - unfold NUM_CORE. lia.
  - unfold LLC_SETS, NUM_CORE. lia.
  - lia.
Defined.

(** * Further properties of the updaters *)

(** X10.  On a hit the two policies differ in the SHCT only: both set the
    line's reuse flag and promote it to [rrpv = 0], both leave the
    signatures alone and count the hit, but the baseline leaves the SHCT
    untouched where the improved policy reinforces the line's signature. *)
Theorem hit_updates_differ_in_SHCT st cpu set way paddr PC victim_addr type hit :
  dims_ok st → in_range cpu set way → hit ≠ 0%Z →
  ∃ st_base st_new,
    Baseline.UpdateReplacementState cpu set way paddr PC victim_addr type hit st
      = Some (tt, st_base) ∧
    NewPolicy.UpdateReplacementState cpu set way paddr PC victim_addr type hit st
      = Some (tt, st_new) ∧
    repl_rrpv st_base = repl_rrpv st_new ∧
    repl_sig st_base = repl_sig st_new ∧
    repl_reused st_base = repl_reused st_new ∧
    stat_hits st_base = stat_hits st_new ∧
    stat_misses st_base = stat_misses st_new ∧
    SHCT st_base = SHCT st.
Proof.
  intros Hdims Hrange Hhit.
  pose proof Hdims as (Hrr & Hsg & Hre & Hlen).
  destruct (shape3_rd3 _ _ _ _ Hrr Hrange) as [v Hv].
  destruct (shape3_rd3 _ _ _ _ Hsg Hrange) as [s Hs].
  destruct (shape3_rd3 _ _ _ _ Hre Hrange) as [r Hr].
  destruct (dims_SHCT_rd1 st (sig_index s) Hdims (sig_index_range s)) as [c Hc].
  eexists _, _.
  split; [by eapply Baseline_hit_run|].
  split; [by eapply Update_hit_run|].
  done.
Qed.

Lemma hit_updates_differ_in_SHCT_witness :
  ∃ st_base st_new,
    Baseline.UpdateReplacementState 0 0 2 0 48 0 0 1 filled_state
      = Some (tt, st_base) ∧
    NewPolicy.UpdateReplacementState 0 0 2 0 48 0 0 1 filled_state
      = Some (tt, st_new) ∧
    repl_rrpv st_base = repl_rrpv st_new ∧
    repl_sig st_base = repl_sig st_new ∧
    repl_reused st_base = repl_reused st_new ∧
    stat_hits st_base = stat_hits st_new ∧
    stat_misses st_base = stat_misses st_new ∧
    SHCT st_base = SHCT filled_state.
Proof.
  apply (hit_updates_differ_in_SHCT filled_state 0 0 2 0 48 0 0 1).
  - apply (bool_decide_unpack _). vm_compute. exact I.
  - unfold in_range, LLC_SETS, NUM_CORE, LLC_WAYS. lia.
  - discriminate.
Defined.

Lemma insertion_tiers_related (pred : Z) :
  (insertion_rrpv pred ≤ 1 ↔ baseline_insertion_rrpv pred = 0)%Z ∧
  (MAX_RRPV - 1 ≤ insertion_rrpv pred ↔
   baseline_insertion_rrpv pred = MAX_RRPV - 1)%Z.
Proof.
  unfold insertion_rrpv, baseline_insertion_rrpv, THRESHOLD, SHCT_INIT, wrap8.
  rewrite MAX_RRPV_eq.
  change ((4 + 2) mod 2 ^ 8)%Z with 6%Z. change (4 mod 2 ^ 8)%Z with 4%Z.
  destruct (Z.geb_spec pred 6), (Z.geb_spec pred 4), (Z.gtb_spec pred 0);
    simpl; lia.
Qed.

(** X11.  On a miss, on a line whose stored signature is below
    [SHCT_SIZE], the two policies leave the same signatures, reuse flags,
    SHCT and statistics, and the same [rrpv] on every other line.  They
    differ in the inserted [rrpv] only, and there by tier: the baseline
    inserts 0 exactly where the improved policy inserts 0 or 1, and
    [MAX_RRPV - 1] exactly where the improved policy inserts [MAX_RRPV - 1]
    or [MAX_RRPV]. *)
Theorem miss_updates_differ_in_tier st cpu set way paddr PC victim_addr type s :
  dims_ok st → in_range cpu set way →
  rd3 (repl_sig st) cpu set way = Some s → (0 ≤ s < SHCT_SIZE)%Z →
  ∃ st_base st_new v_base v_new,
    Baseline.UpdateReplacementState cpu set way paddr PC victim_addr type 0 st
      = Some (tt, st_base) ∧
    NewPolicy.UpdateReplacementState cpu set way paddr PC victim_addr type 0 st
      = Some (tt, st_new) ∧
    repl_sig st_base = repl_sig st_new ∧
    repl_reused st_base = repl_reused st_new ∧
    SHCT st_base = SHCT st_new ∧
    stat_hits st_base = stat_hits st_new ∧
    stat_misses st_base = stat_misses st_new ∧
    rd3 (repl_rrpv st_base) cpu set way = Some v_base ∧
    rd3 (repl_rrpv st_new) cpu set way = Some v_new ∧
    (v_new ≤ 1 ↔ v_base = 0)%Z ∧
    (MAX_RRPV - 1 ≤ v_new ↔ v_base = MAX_RRPV - 1)%Z ∧
    ∀ cpu' set' way', (cpu', set', way') ≠ (cpu, set, way) →
      rd3 (repl_rrpv st_base) cpu' set' way'
        = rd3 (repl_rrpv st_new) cpu' set' way'.
Proof.
  intros Hdims Hrange Hs Hsb.
  pose proof Hdims as (Hrr & Hsg & Hre & Hlen).
  destruct (shape3_rd3 _ _ _ _ Hrr Hrange) as [v Hv].
  destruct (shape3_rd3 _ _ _ _ Hre Hrange) as [r Hr].
  pose proof (sig_index_id s Hsb) as Hid.
  destruct (dims_SHCT_rd1 st s Hdims Hsb) as [c Hc].
  destruct (rd1_Some (<[Z.to_nat s := learn r c]> (SHCT st))
              (signature PC)) as [pred Hpred].
  { rewrite length_insert, Hlen. pose proof (signature_range PC).
    unfold SHCT_SIZE in *. lia. }
  eexists _, _, (baseline_insertion_rrpv pred), (insertion_rrpv pred).
  split; [by eapply Baseline_miss_run|].
  split; [eapply Update_miss_run; rewrite ?Hid; done|].
  cbn [repl_rrpv repl_sig repl_reused SHCT stat_hits stat_misses].
  rewrite Hid.
  repeat (split; [done|]).
  split; [by eapply rd3_alter_eq|].
  split; [by eapply rd3_alter_eq|].
  split; [apply insertion_tiers_related|].
  split; [apply insertion_tiers_related|].
  intros cpu' set' way' Hne. by rewrite !rd3_alter_ne.
Qed.

Lemma miss_updates_differ_in_tier_witness :
  ∃ st_base st_new v_base v_new,
    Baseline.UpdateReplacementState 0 0 2 0 1600 0 0 0 filled_state
      = Some (tt, st_base) ∧
    NewPolicy.UpdateReplacementState 0 0 2 0 1600 0 0 0 filled_state
      = Some (tt, st_new) ∧
    repl_sig st_base = repl_sig st_new ∧
    repl_reused st_base = repl_reused st_new ∧
    SHCT st_base = SHCT st_new ∧
    stat_hits st_base = stat_hits st_new ∧
    stat_misses st_base = stat_misses st_new ∧
    rd3 (repl_rrpv st_base) 0 0 2 = Some v_base ∧
    rd3 (repl_rrpv st_new) 0 0 2 = Some v_new ∧
    (v_new ≤ 1 ↔ v_base = 0)%Z ∧
    (MAX_RRPV - 1 ≤ v_new ↔ v_base = MAX_RRPV - 1)%Z ∧
    ∀ cpu' set' way', (cpu', set', way') ≠ (0, 0, 2) →
      rd3 (repl_rrpv st_base) cpu' set' way'
        = rd3 (repl_rrpv st_new) cpu' set' way'.
Proof.
  apply (miss_updates_differ_in_tier filled_state 0 0 2 0 1600 0 0 3).
  - apply (bool_decide_unpack _). vm_compute. exact I.
  - unfold in_range, LLC_SETS, NUM_CORE, LLC_WAYS. lia.
  - vm_compute. reflexivity.
  - unfold SHCT_SIZE. lia.
Defined.

(** X12.  A miss update touches one line only: the [rrpv], signature and
    reuse flag of every other line and [stat_hits] are unchanged, and
    [stat_misses] is incremented (as a [uint64_t]). *)
Theorem miss_update_frame st cpu set way paddr PC victim_addr type :
  dims_ok st → in_range cpu set way →
  ∃ st',
    NewPolicy.UpdateReplacementState cpu set way paddr PC victim_addr type 0 st
      = Some (tt, st') ∧
    stat_hits st' = stat_hits st ∧
    stat_misses st' = wrap64 (stat_misses st + 1) ∧
    ∀ cpu' set' way', (cpu', set', way') ≠ (cpu, set, way) →
      rd3 (repl_rrpv st') cpu' set' way' = rd3 (repl_rrpv st) cpu' set' way' ∧
      rd3 (repl_sig st') cpu' set' way' = rd3 (repl_sig st) cpu' set' way' ∧
      rd3 (repl_reused st') cpu' set' way' = rd3 (repl_reused st) cpu' set' way'.
Proof.
  intros Hdims Hrange.
  pose proof Hdims as (Hrr & Hsg & Hre & Hlen).
  destruct (shape3_rd3 _ _ _ _ Hrr Hrange) as [v Hv].
  destruct (shape3_rd3 _ _ _ _ Hsg Hrange) as [s Hs].
  destruct (shape3_rd3 _ _ _ _ Hre Hrange) as [r Hr].
  destruct (dims_SHCT_rd1 st (sig_index s) Hdims (sig_index_range s)) as [c Hc].
  destruct (rd1_Some (<[Z.to_nat (sig_index s) := learn r c]> (SHCT st))
              (signature PC)) as [pred Hpred].
  { rewrite length_insert, Hlen. pose proof (signature_range PC).
    unfold SHCT_SIZE in *. lia. }
  eexists. split; [by eapply Update_miss_run|].
  cbn [repl_rrpv repl_sig repl_reused SHCT stat_hits stat_misses].
  split; [done|]. split; [done|].
  intros cpu' set' way' Hne. by rewrite !rd3_alter_ne.
Qed.

Lemma miss_update_frame_witness :
  ∃ st',
    NewPolicy.UpdateReplacementState 0 1 2 0 1600 0 0 0 refilled_state
      = Some (tt, st') ∧
    stat_hits st' = stat_hits refilled_state ∧
    stat_misses st' = wrap64 (stat_misses refilled_state + 1) ∧
    ∀ cpu' set' way', (cpu', set', way') ≠ (0, 1, 2) →
      rd3 (repl_rrpv st') cpu' set' way'
        = rd3 (repl_rrpv refilled_state) cpu' set' way' ∧
      rd3 (repl_sig st') cpu' set' way'
        = rd3 (repl_sig refilled_state) cpu' set' way' ∧
      rd3 (repl_reused st') cpu' set' way'
        = rd3 (repl_reused refilled_state) cpu' set' way'.
Proof.
  apply (miss_update_frame refilled_state 0 1 2 0 1600 0 0).
  - apply (bool_decide_unpack _). vm_compute. exact I.
  - unfold in_range, LLC_SETS, NUM_CORE, LLC_WAYS. lia.
Defined.

(** * Runs *)

Lemma wrap64_id (z : Z) : (0 ≤ z < 2 ^ 64)%Z → wrap64 z = z.
Proof. intros Hz. by apply Z.mod_small. Qed.

Lemma wrap64_add (a x y : Z) :
  wrap64 (wrap64 (a + x) + y) = wrap64 (a + (x + y)).
Proof.
  unfold wrap64. rewrite Zplus_mod_idemp_l. f_equal. lia.
Qed.

Lemma count_hits_cons o ops :
  count_hits (o :: ops) = (count_hits [o] + count_hits ops)%Z.
Proof. destruct o; simpl; lia. Qed.

Lemma count_misses_cons o ops :
  count_misses (o :: ops) = (count_misses [o] + count_misses ops)%Z.
Proof. destruct o; simpl; lia. Qed.

Lemma count_hits_nonneg ops : (0 ≤ count_hits ops)%Z.
Proof.
  induction ops as [|[] ops IH]; simpl; [lia|done|].
  destruct (_ =? _)%Z; lia.
Qed.

Lemma count_misses_nonneg ops : (0 ≤ count_misses ops)%Z.
Proof.
  induction ops as [|[] ops IH]; simpl; [lia|done|].
  destruct (_ =? _)%Z; lia.
Qed.

Lemma run_op_effect o st :
  state_ok st → op_in_range o →
  ∃ st',
    run_op o st = Some (tt, st') ∧ state_ok st' ∧
    stat_hits st' = wrap64 (stat_hits st + count_hits [o]) ∧
    stat_misses st' = wrap64 (stat_misses st + count_misses [o]).
Proof.
  intros Hok Hrange.
  pose proof Hok as (Hdims & _ & _ & _ & _ & Hh & Hm).
  destruct o as [cpu set PC paddr type|cpu set way paddr PC victim_addr type hit].
  - destruct Hrange as [Hcpu Hset]. pose proof Hdims as (Hshape & _).
    destruct (shape3_row3 _ _ _ Hshape Hcpu Hset) as (row & Hrow & Hlen).
    pose proof (GetVictimInSet_run cpu set PC paddr type st row Hrow Hlen) as Hrun.
    eexists. cbn [run_op]. rewrite (bind_run _ _ _ _ _ Hrun).
    split; [done|]. split; [by eapply GetVictimInSet_ok|].
    cbn [count_hits count_misses stat_hits stat_misses with_row].
    rewrite !Z.add_0_r, !wrap64_id; done.
  - cbn [run_op op_in_range] in *.
    pose proof Hdims as (Hrr & Hsg & Hre & Hlen).
    destruct (shape3_rd3 _ _ _ _ Hrr Hrange) as [v Hv].
    destruct (shape3_rd3 _ _ _ _ Hsg Hrange) as [s Hs].
    destruct (shape3_rd3 _ _ _ _ Hre Hrange) as [r Hr].
    destruct (dims_SHCT_rd1 st (sig_index s) Hdims (sig_index_range s)) as [c Hc].
    cbn [count_hits count_misses].
    destruct (Z.eqb_spec hit 0) as [->|Hhit].
    + destruct (rd1_Some (<[Z.to_nat (sig_index s) := learn r c]> (SHCT st))
                  (signature PC)) as [pred Hpred].
      { rewrite length_insert, Hlen. pose proof (signature_range PC).
        unfold SHCT_SIZE in *. lia. }
      pose proof (Update_miss_run st cpu set way paddr PC victim_addr type
                    v s r c pred Hv Hs Hr Hc Hpred) as Hrun.
      eexists. split; [exact Hrun|]. split; [by eapply Update_ok|].
      cbn [stat_hits stat_misses]. rewrite !Z.add_0_r.
      by rewrite (wrap64_id (stat_hits st)).
    + pose proof (Update_hit_run st cpu set way paddr PC victim_addr type hit
                    v s r c Hhit Hv Hs Hr Hc) as Hrun.
      eexists. split; [exact Hrun|]. split; [by eapply Update_ok|].
      cbn [stat_hits stat_misses]. rewrite !Z.add_0_r.
      by rewrite (wrap64_id (stat_misses st)).
Qed.

Lemma run_ops_effect :
  ∀ ops st,
    state_ok st → Forall op_in_range ops →
    ∃ st',
      run_ops ops st = Some (tt, st') ∧ state_ok st' ∧
      stat_hits st' = wrap64 (stat_hits st + count_hits ops) ∧
      stat_misses st' = wrap64 (stat_misses st + count_misses ops).
Proof.
  induction ops as [|o ops IH]; intros st Hok Hall.
  - exists st. pose proof Hok as (_ & _ & _ & _ & _ & Hh & Hm).
    cbn [count_hits count_misses]. rewrite !Z.add_0_r, !wrap64_id; done.
  - apply Forall_cons in Hall as [Ho Hall].
    destruct (run_op_effect o st Hok Ho) as (st1 & Hrun1 & Hok1 & Hh1 & Hm1).
    destruct (IH st1 Hok1 Hall) as (st' & Hrun & Hok' & Hh & Hm).
    exists st'. cbn [run_ops]. rewrite (bind_run _ _ _ _ _ Hrun1).
    split; [done|]. split; [done|].
    rewrite Hh, Hm, Hh1, Hm1, !wrap64_add.
    by rewrite <- count_hits_cons, <- count_misses_cons.
Qed.

(** X13.  From a state that satisfies the invariant, every sequence of
    in-range victim selections and updates runs to the end without leaving
    an array, the invariant still holds, and the statistics have counted:
    [stat_hits] has grown by the number of hit updates and [stat_misses] by
    the number of miss updates (as [uint64_t], exactly while below
    [2^64]); victim selections count as neither. *)
Theorem run_counts_updates st ops :
  state_ok st → Forall op_in_range ops →
  ∃ st',
    run_ops ops st = Some (tt, st') ∧ state_ok st' ∧
    stat_hits st' = wrap64 (stat_hits st + count_hits ops) ∧
    stat_misses st' = wrap64 (stat_misses st + count_misses ops) ∧
    ((stat_hits st + count_hits ops < 2 ^ 64)%Z →
     stat_hits st' = (stat_hits st + count_hits ops)%Z) ∧
    ((stat_misses st + count_misses ops < 2 ^ 64)%Z →
     stat_misses st' = (stat_misses st + count_misses ops)%Z).
Proof.
  intros Hok Hall.
  destruct (run_ops_effect ops st Hok Hall) as (st' & Hrun & Hok' & Hh & Hm).
  pose proof Hok as (_ & _ & _ & _ & _ & Hh0 & Hm0).
  pose proof (count_hits_nonneg ops). pose proof (count_misses_nonneg ops).
  exists st'. repeat (split; [done|]). split.
  - intros Hlt. rewrite Hh. apply wrap64_id. lia.
  - intros Hlt. rewrite Hm. apply wrap64_id. lia.
Qed.

Lemma run_counts_updates_witness :
  ∃ st',
    run_ops [OpUpdate 0 0 0 0 16 0 0 0; OpVictim 0 0 32 0 0;
             OpUpdate 0 0 0 0 16 0 0 1; OpUpdate 0 1 3 0 48 0 0 0] init_state
      = Some (tt, st') ∧ state_ok st' ∧
    stat_hits st' = wrap64 (stat_hits init_state + 1) ∧
    stat_misses st' = wrap64 (stat_misses init_state + 2) ∧
    ((stat_hits init_state + 1 < 2 ^ 64)%Z →
     stat_hits st' = (stat_hits init_state + 1)%Z) ∧
    ((stat_misses init_state + 2 < 2 ^ 64)%Z →
     stat_misses st' = (stat_misses init_state + 2)%Z).
Proof.
  apply (run_counts_updates init_state
           [OpUpdate 0 0 0 0 16 0 0 0; OpVictim 0 0 32 0 0;
            OpUpdate 0 0 0 0 16 0 0 1; OpUpdate 0 1 3 0 48 0 0 0]).
  - apply (bool_decide_unpack _). vm_compute. exact I.
  - repeat (apply Forall_cons_2;
              [unfold op_in_range, in_range, LLC_SETS, NUM_CORE, LLC_WAYS; lia|]).
    apply Forall_nil_2.
Defined.

(** * Saturating counters and signatures *)

(** X14.  On every pair of [uint8_t] values the saturating helpers stay in
    [uint8_t] range without wrapping, move the counter by at most one, and
    undo each other away from the bounds: [sat_dec] after [sat_inc] is the
    identity below [max_v], [sat_inc] after [sat_dec] is the identity on
    [(0, max_v]]; at the bounds ([c >= max_v], [c = 0]) they do nothing. *)
Theorem saturating_counters_round_trip (c max_v : Z) :
  (0 ≤ c ≤ 255)%Z → (0 ≤ max_v ≤ 255)%Z →
  (0 ≤ NewPolicy.sat_inc c max_v ≤ 255)%Z ∧
  (0 ≤ NewPolicy.sat_dec c ≤ 255)%Z ∧
  ((c < max_v)%Z →
   NewPolicy.sat_inc c max_v = (c + 1)%Z ∧
   NewPolicy.sat_dec (NewPolicy.sat_inc c max_v) = c) ∧
  ((max_v ≤ c)%Z → NewPolicy.sat_inc c max_v = c) ∧
  ((0 < c)%Z →
   NewPolicy.sat_dec c = (c - 1)%Z ∧
   ((c ≤ max_v)%Z → NewPolicy.sat_inc (NewPolicy.sat_dec c) max_v = c)) ∧
  (c = 0%Z → NewPolicy.sat_dec c = 0%Z).
Proof.
  intros Hc Hm.
  assert (∀ x, (0 ≤ x ≤ 255)%Z → (x < max_v)%Z →
               NewPolicy.sat_inc x max_v = (x + 1)%Z) as Hinc.
  { intros x Hx Hlt. unfold NewPolicy.sat_inc, incr8, wrap8.
    destruct (Z.ltb_spec x max_v); [|lia]. apply Z.mod_small. lia. }
  assert (∀ x, (max_v ≤ x)%Z → NewPolicy.sat_inc x max_v = x) as Hinc_top.
  { intros x Hle. unfold NewPolicy.sat_inc.
    destruct (Z.ltb_spec x max_v); [lia|done]. }
  assert (∀ x, (0 < x ≤ 256)%Z → NewPolicy.sat_dec x = (x - 1)%Z) as Hdec.
  { intros x Hx. unfold NewPolicy.sat_dec, decr8, wrap8.
    destruct (Z.gtb_spec x 0); [|lia]. apply Z.mod_small. lia. }
  assert (NewPolicy.sat_dec 0 = 0%Z) as Hdec0 by done.
  split.
  { destruct (Z.lt_ge_cases c max_v);
      [rewrite Hinc by lia|rewrite Hinc_top by lia]; lia. }
  split.
  { destruct (Z.eq_dec c 0%Z) as [->|Hc0];
      [rewrite Hdec0|rewrite Hdec by lia]; lia. }
  split.
  { intros Hlt. rewrite Hinc by lia. split; [done|]. rewrite Hdec by lia. lia. }
  split; [by apply Hinc_top|].
  split.
  { intros Hpos. rewrite Hdec by lia. split; [done|].
    intros Hle. rewrite Hinc by lia. lia. }
  by intros ->.
Qed.

Lemma saturating_counters_round_trip_witness :
  (0 ≤ NewPolicy.sat_inc 3 7 ≤ 255)%Z ∧
  (0 ≤ NewPolicy.sat_dec 3 ≤ 255)%Z ∧
  ((3 < 7)%Z →
   NewPolicy.sat_inc 3 7 = (3 + 1)%Z ∧
   NewPolicy.sat_dec (NewPolicy.sat_inc 3 7) = 3%Z) ∧
  ((7 ≤ 3)%Z → NewPolicy.sat_inc 3 7 = 3%Z) ∧
  ((0 < 3)%Z →
   NewPolicy.sat_dec 3 = (3 - 1)%Z ∧
   ((3 ≤ 7)%Z → NewPolicy.sat_inc (NewPolicy.sat_dec 3) 7 = 3%Z)) ∧
  (3%Z = 0%Z → NewPolicy.sat_dec 3 = 0%Z).
Proof. apply (saturating_counters_round_trip 3 7); lia. Defined.

Lemma signature_div (PC : Z) : signature PC = ((PC / 16) mod 1024)%Z.
Proof.
  rewrite signature_spec, land_mask. unfold SIGN_SHIFT.
  by rewrite Z.shiftr_div_pow2 by lia.
Qed.

(** X15.  Signatures alias: an update depends on its [PC] through bits
    4..13 only.  Two program counters with the same [(PC / 16) mod 1024]
    (the same low four bits discarded, the same ten bits kept) drive both
    updaters to the same result from every state. *)
Theorem aliasing_PCs_update_alike st cpu set way paddr PC PC' victim_addr type hit :
  ((PC / 16) mod 1024 = (PC' / 16) mod 1024)%Z →
  NewPolicy.UpdateReplacementState cpu set way paddr PC victim_addr type hit st
    = NewPolicy.UpdateReplacementState cpu set way paddr PC' victim_addr type hit st ∧
  Baseline.UpdateReplacementState cpu set way paddr PC victim_addr type hit st
    = Baseline.UpdateReplacementState cpu set way paddr PC' victim_addr type hit st.
Proof.
  intros Halias.
  assert (signature PC = signature PC') as Hsig by (by rewrite !signature_div).
  unfold NewPolicy.UpdateReplacementState, Baseline.UpdateReplacementState.
  fold (signature PC) (signature PC'). by rewrite Hsig.
Qed.

Lemma aliasing_PCs_update_alike_witness :
  NewPolicy.UpdateReplacementState 0 0 1 0 16 0 0 0 filled_state
    = NewPolicy.UpdateReplacementState 0 0 1 0 49175 0 0 0 filled_state ∧
  Baseline.UpdateReplacementState 0 0 1 0 16 0 0 0 filled_state
    = Baseline.UpdateReplacementState 0 0 1 0 49175 0 0 0 filled_state.
Proof.
  apply (aliasing_PCs_update_alike filled_state 0 0 1 0 16 49175 0 0 0).
  vm_compute. reflexivity.
Defined.

(** * The life of a line *)

Lemma miss_stores st cpu set way paddr PC victim_addr type :
  state_ok st → in_range cpu set way →
  ∃ st',
    NewPolicy.UpdateReplacementState cpu set way paddr PC victim_addr type 0 st
      = Some (tt, st') ∧
    state_ok st' ∧
    rd3 (repl_sig st') cpu set way = Some (signature PC) ∧
    rd3 (repl_reused st') cpu set way = Some 0%Z.
Proof.
  intros Hok Hrange.
  pose proof Hok as (Hdims & _).
  pose proof Hdims as (Hrr & Hsg & Hre & Hlen).
  destruct (shape3_rd3 _ _ _ _ Hrr Hrange) as [v Hv].
  destruct (shape3_rd3 _ _ _ _ Hsg Hrange) as [s Hs].
  destruct (shape3_rd3 _ _ _ _ Hre Hrange) as [r Hr].
  destruct (dims_SHCT_rd1 st (sig_index s) Hdims (sig_index_range s)) as [c Hc].
  destruct (rd1_Some (<[Z.to_nat (sig_index s) := learn r c]> (SHCT st))
              (signature PC)) as [pred Hpred].
  { rewrite length_insert, Hlen. pose proof (signature_range PC).
    unfold SHCT_SIZE in *. lia. }
  pose proof (Update_miss_run st cpu set way paddr PC victim_addr type
                v s r c pred Hv Hs Hr Hc Hpred) as Hrun.
  eexists. split; [exact Hrun|]. split; [by eapply Update_ok|].
  cbn [repl_sig repl_reused]. split; by eapply rd3_alter_eq.
Qed.

Lemma hit_keeps_signature st cpu set way paddr PC victim_addr type hit s c :
  state_ok st → in_range cpu set way → hit ≠ 0%Z →
  rd3 (repl_sig st) cpu set way = Some s → rd1 (SHCT st) s = Some c →
  ∃ st',
    NewPolicy.UpdateReplacementState cpu set way paddr PC victim_addr type hit st
      = Some (tt, st') ∧
    state_ok st' ∧
    rd3 (repl_sig st') cpu set way = Some s ∧
    rd3 (repl_reused st') cpu set way = Some 1%Z ∧
    rd1 (SHCT st') s = Some (Z.min (c + 1) SHCT_MAX).
Proof.
  intros Hok Hrange Hhit Hs Hc.
  destruct (hit_effect st cpu set way paddr PC victim_addr type hit Hok Hrange Hhit)
    as (s' & c' & v & r & Hs' & Hc' & Hrun & Hv & Hr & Hs0).
  assert (s' = s) as -> by congruence.
  assert (c' = c) as -> by congruence.
  eexists. split; [exact Hrun|]. split; [by eapply Update_ok|].
  cbn [repl_sig repl_reused SHCT].
  split; [done|]. split; [by eapply rd3_alter_eq|by eapply rd1_insert_eq].
Qed.

(** X16.  The life of a line, from installation to eviction.  Let [c] be
    the SHCT counter of the installing access's signature once the line is
    installed.  If the line is evicted without having been hit, that
    counter ends at [max (c - 1) 0]; if it is hit once and then evicted, it
    ends at [min (c + 2) SHCT_MAX]: one step for the hit and one for the
    eviction of a reused line. *)
Theorem line_life_moves_counter st cpu set way paddr victim_addr type
    PC_install PC_hit PC_evict hit :
  state_ok st → in_range cpu set way → hit ≠ 0%Z →
  ∃ st1 c,
    NewPolicy.UpdateReplacementState
      cpu set way paddr PC_install victim_addr type 0 st = Some (tt, st1) ∧
    rd1 (SHCT st1) (signature PC_install) = Some c ∧
    (∃ st2,
       NewPolicy.UpdateReplacementState
         cpu set way paddr PC_evict victim_addr type 0 st1 = Some (tt, st2) ∧
       rd1 (SHCT st2) (signature PC_install) = Some (Z.max (c - 1) 0)) ∧
    (∃ st2 st3,
       NewPolicy.UpdateReplacementState
         cpu set way paddr PC_hit victim_addr type hit st1 = Some (tt, st2) ∧
       NewPolicy.UpdateReplacementState
         cpu set way paddr PC_evict victim_addr type 0 st2 = Some (tt, st3) ∧
       rd1 (SHCT st3) (signature PC_install) = Some (Z.min (c + 2) SHCT_MAX)).
Proof.
  intros Hok Hrange Hhit.
  destruct (miss_stores st cpu set way paddr PC_install victim_addr type Hok Hrange)
    as (st1 & Hrun1 & Hok1 & Hs1 & Hr1).
  pose proof Hok1 as (Hdims1 & _ & Hbs1 & _).
  destruct (dims_SHCT_rd1 st1 (signature PC_install) Hdims1
              (signature_range PC_install)) as [c Hc].
  pose proof (SHCT_bounded_rd1 _ _ _ Hbs1 Hc) as Hcb.
  exists st1, c. split; [done|]. split; [done|]. split.
  - destruct (miss_effect st1 cpu set way paddr PC_evict victim_addr type Hok1 Hrange)
      as (st2 & s & r & c' & Hs & Hr & Hc' & Hrun2 & _ & Hlearn & _).
    assert (s = signature PC_install) as -> by congruence.
    assert (r = 0%Z) as -> by congruence.
    assert (c' = c) as -> by congruence.
    exists st2. split; [done|]. rewrite Hlearn. f_equal.
    rewrite learn_spec; [done|by left|done].
  - destruct (hit_keeps_signature st1 cpu set way paddr PC_hit victim_addr type hit
                (signature PC_install) c Hok1 Hrange Hhit Hs1 Hc)
      as (st2 & Hrun2 & Hok2 & Hs2 & Hr2 & Hc2).
    destruct (miss_effect st2 cpu set way paddr PC_evict victim_addr type Hok2 Hrange)
      as (st3 & s & r & c' & Hs & Hr & Hc' & Hrun3 & _ & Hlearn & _).
    assert (s = signature PC_install) as -> by congruence.
    assert (r = 1%Z) as -> by congruence.
    assert (c' = Z.min (c + 1) SHCT_MAX) as -> by congruence.
    exists st2, st3. split; [done|]. split; [done|]. rewrite Hlearn. f_equal.
    rewrite learn_spec; [|by right|unfold SHCT_MAX in *; lia].
    simpl. unfold SHCT_MAX in *. lia.
Qed.

Lemma line_life_moves_counter_witness :
  ∃ st1 c,
    NewPolicy.UpdateReplacementState 0 0 0 0 1600 0 0 0 filled_state
      = Some (tt, st1) ∧
    rd1 (SHCT st1) (signature 1600) = Some c ∧
    (∃ st2,
       NewPolicy.UpdateReplacementState 0 0 0 0 3200 0 0 0 st1 = Some (tt, st2) ∧
       rd1 (SHCT st2) (signature 1600) = Some (Z.max (c - 1) 0)) ∧
    (∃ st2 st3,
       NewPolicy.UpdateReplacementState 0 0 0 0 1600 0 0 1 st1 = Some (tt, st2) ∧
       NewPolicy.UpdateReplacementState 0 0 0 0 3200 0 0 0 st2 = Some (tt, st3) ∧
       rd1 (SHCT st3) (signature 1600) = Some (Z.min (c + 2) SHCT_MAX)).
Proof.
  apply (line_life_moves_counter filled_state 0 0 0 0 0 0 1600 1600 3200 1).
  - apply (bool_decide_unpack _). vm_compute. exact I.
  - unfold in_range, LLC_SETS, NUM_CORE, LLC_WAYS. lia.
  - discriminate.
Defined.

(** * Initialisation *)

Lemma rd3_replicate c s w (x : Z) :
  in_range c s w →
  rd3 (replicate NUM_CORE (replicate LLC_SETS (replicate LLC_WAYS x))) c s w
    = Some x.
Proof.
  intros (Hc & Hs & Hw). unfold rd3.
  rewrite (lookup_replicate_2 _ _ _ Hc), (lookup_replicate_2 _ _ _ Hs).
  by apply lookup_replicate_2.
Qed.

(** X17.  [InitReplacementState] is a full reset.  From arrays of the
    declared extents, whatever they hold, it returns and leaves one and the
    same state: both statistics 0, every line at [rrpv = MAX_RRPV] with
    signature 0 and reuse flag 0, every SHCT counter at [SHCT_INIT].  That
    state satisfies the invariant, and initialising it again changes
    nothing. *)
Theorem init_is_a_full_reset st0 :
  dims_ok st0 →
  ∃ st,
    InitReplacementState st0 = Some (tt, st) ∧
    stat_hits st = 0%Z ∧ stat_misses st = 0%Z ∧
    (∀ cpu set way, in_range cpu set way →
       rd3 (repl_rrpv st) cpu set way = Some MAX_RRPV ∧
       rd3 (repl_sig st) cpu set way = Some 0%Z ∧
       rd3 (repl_reused st) cpu set way = Some 0%Z) ∧
    (∀ i, (0 ≤ i < SHCT_SIZE)%Z → rd1 (SHCT st) i = Some SHCT_INIT) ∧
    state_ok st ∧
    InitReplacementState st = Some (tt, st) ∧
    (∀ st1, dims_ok st1 → InitReplacementState st1 = Some (tt, st)).
Proof.
  intros Hdims. exists init_state.
  split; [by apply InitReplacementState_run|].
  split; [done|]. split; [done|].
  split.
  { intros cpu set way Hrange. unfold init_state.
    cbn [repl_rrpv repl_sig repl_reused].
    repeat split; by apply rd3_replicate. }
  split.
  { intros i Hi. unfold rd1, init_state. cbn [SHCT].
    rewrite bool_decide_eq_true_2 by lia.
    apply lookup_replicate_2. unfold SHCT_SIZE in *. lia. }
  split; [apply init_state_ok|].
  split; [apply InitReplacementState_run, init_state_ok|].
  intros st1 Hdims1. by apply InitReplacementState_run.
Qed.

Lemma init_is_a_full_reset_witness :
  ∃ st,
    InitReplacementState refilled_state = Some (tt, st) ∧
    stat_hits st = 0%Z ∧ stat_misses st = 0%Z ∧
    (∀ cpu set way, in_range cpu set way →
       rd3 (repl_rrpv st) cpu set way = Some MAX_RRPV ∧
       rd3 (repl_sig st) cpu set way = Some 0%Z ∧
       rd3 (repl_reused st) cpu set way = Some 0%Z) ∧
    (∀ i, (0 ≤ i < SHCT_SIZE)%Z → rd1 (SHCT st) i = Some SHCT_INIT) ∧
    state_ok st ∧
    InitReplacementState st = Some (tt, st) ∧
    (∀ st1, dims_ok st1 → InitReplacementState st1 = Some (tt, st)).
Proof.
  apply (init_is_a_full_reset refilled_state).
  apply (bool_decide_unpack _). vm_compute. exact I.
Defined.
